(** * SynthoraAI: the generation and gallery state of the AI studio

    A shallow embedding of the two React components of the repository that
    own generated artifacts, [TextGenerator] (src/components/AIStudio.tsx,
    second document) and [ImageGenerator] (the unnamed part), and of the
    pure helpers they use.

    JavaScript strings are sequences of UTF-16 code units; they are modelled
    as lists of [N].  Handlers are written in a small free monad of
    operations so that an [await] is a real suspension point: the
    continuation is resumed later, in whatever state the component then
    has, with the variables the closure captured when it was created. *)

From Stdlib Require Import NArith String Ascii List Decimal Bool Lia.
From stdpp Require Import gmap strings list.

Local Open Scope N_scope.

(** ** JavaScript strings *)

Abbreviation jsstring := (list N).

(** An ASCII literal as a JavaScript string. *)
Definition js (s : string) : jsstring :=
  map N_of_ascii (list_ascii_of_string s).

(** Truthiness of a string: only the empty string is falsy. *)
Definition truthy_string (s : jsstring) : bool :=
  match s with
  | [] => false
  | _ :: _ => true
  end.

(** [a || b] on strings. *)
Definition or_else (a b : jsstring) : jsstring :=
  if truthy_string a then a else b.

(** [Number.prototype.toString] on a non-negative integer. *)
Fixpoint uint_units (d : Decimal.uint) : jsstring :=
  match d with
  | Decimal.Nil => []
  | Decimal.D0 d => 48 :: uint_units d
  | Decimal.D1 d => 49 :: uint_units d
  | Decimal.D2 d => 50 :: uint_units d
  | Decimal.D3 d => 51 :: uint_units d
  | Decimal.D4 d => 52 :: uint_units d
  | Decimal.D5 d => 53 :: uint_units d
  | Decimal.D6 d => 54 :: uint_units d
  | Decimal.D7 d => 55 :: uint_units d
  | Decimal.D8 d => 56 :: uint_units d
  | Decimal.D9 d => 57 :: uint_units d
  end.

Definition toString (n : N) : jsstring := uint_units (N.to_uint n).

(** *** [String.prototype.trim]

    [trim] removes leading and trailing WhiteSpace and LineTerminator code
    points (ECMAScript, TrimString).  All of them lie in the basic plane,
    so the test is on single code units. *)
Definition is_white_space (c : N) : bool :=
  (c =? 9) || (c =? 10) || (c =? 11) || (c =? 12) || (c =? 13) ||
  (c =? 32) || (c =? 160) || (c =? 5760) ||
  ((8192 <=? c) && (c <=? 8202)) ||
  (c =? 8232) || (c =? 8233) || (c =? 8239) || (c =? 8287) ||
  (c =? 12288) || (c =? 65279).

Fixpoint trimStart (s : jsstring) : jsstring :=
  match s with
  | [] => []
  | c :: s' => if is_white_space c then trimStart s' else s
  end.

Definition trimEnd (s : jsstring) : jsstring := rev (trimStart (rev s)).

Definition trim (s : jsstring) : jsstring := trimEnd (trimStart s).

(** [!prompt.trim()] *)
Definition blank (s : jsstring) : bool := negb (truthy_string (trim s)).

(** *** The export file name

    Both components compute
    [prompt.slice(0, 50).replace(/[^a-z0-9]/gi, '-').toLowerCase()]. *)

(** [s.slice(0, n)] for [0 <= n]: the first [n] code units. *)
Definition slice0 (n : nat) (s : jsstring) : jsstring := firstn n s.

(** A code unit matched by [[a-z0-9]] under the [i] flag.  Without the [u]
    flag case folding is by simple upper-casing and never maps a unit
    outside ASCII to one inside it, so the class is exactly the ASCII
    letters and digits. *)
Definition is_alnum (c : N) : bool :=
  ((48 <=? c) && (c <=? 57)) ||
  ((65 <=? c) && (c <=? 90)) ||
  ((97 <=? c) && (c <=? 122)).

Definition dash : N := 45.

(** [.replace(/[^a-z0-9]/gi, '-')]: the [g] flag replaces every match, and
    the pattern matches one code unit at a time. *)
Definition replace_non_alnum (s : jsstring) : jsstring :=
  map (fun c => if is_alnum c then c else dash) s.

(** [toLowerCase] on one code unit of the ASCII range; the only strings it
    is applied to here are outputs of [replace_non_alnum], which are ASCII
    (lemma [replace_non_alnum_ascii]). *)
Definition lower_unit (c : N) : N :=
  if (65 <=? c) && (c <=? 90) then c + 32 else c.

Definition toLowerCase (s : jsstring) : jsstring := map lower_unit s.

Definition sanitizedPrompt (prompt : jsstring) : jsstring :=
  toLowerCase (replace_non_alnum (slice0 50 prompt)).

(** A digit, a lower-case ASCII letter or the separator. *)
Definition is_segment_unit (c : N) : bool :=
  ((48 <=? c) && (c <=? 57)) || ((97 <=? c) && (c <=? 122)) || (c =? dash).

(** [`ai-generated-${sanitizedPrompt}-${Date.now()}.txt`] and its [.png]
    sibling. *)
Definition download_name (prompt : jsstring) (now : N) (ext : string) : jsstring :=
  js "ai-generated-" ++ sanitizedPrompt prompt ++ js "-" ++ toString now ++ js ext.



(** *** [String.prototype.split] on [/\s+/]

    The class [\s] is WhiteSpace and LineTerminator, the set [trim] removes.
    The matcher is tried at each position in turn and is greedy, so a
    separator is a maximal run of white space; the piece before it is
    emitted even when it is empty (a leading run gives a first empty piece,
    a trailing run a last one), and the empty string gives one empty piece.
    [in_sep] tells that the previous unit belonged to a separator and [cur]
    holds the piece being read, last unit first. *)
Fixpoint split_go (in_sep : bool) (cur : jsstring) (s : jsstring) : list jsstring :=
  match s with
  | [] => [rev cur]
  | c :: s' =>
      if is_white_space c then
        if in_sep then split_go true cur s'
        else rev cur :: split_go true [] s'
      else split_go false (c :: cur) s'
  end.

Definition split_white_space (s : jsstring) : list jsstring := split_go false [] s.

(** The words of a text, counted directly: a word starts at a unit that is
    not white space and follows white space or the start of the text.
    [after_space] tells that the previous unit was white space. *)
Fixpoint word_starts (after_space : bool) (s : jsstring) : nat :=
  match s with
  | [] => 0
  | c :: s' =>
      if is_white_space c then word_starts true s'
      else (if after_space then 1 else 0) + word_starts false s'
  end.

(** ** JavaScript values that are thrown or returned as errors

    Only what the handlers observe is kept: whether the value is nullish
    (property access throws), whether it is truthy ([if (error)]), and its
    [message] when that is a string ([None] stands for a value without
    one; messages and payloads that are not strings are left out). *)
Inductive js_value :=
| js_nullish                              (* null, undefined *)
| js_falsy                                (* false, 0, NaN, '' *)
| js_truthy (message : option jsstring).  (* any other value *)

Definition truthy (v : js_value) : bool :=
  match v with
  | js_truthy _ => true
  | _ => false
  end.

(** The errors the language itself raises; their texts are engine-specific
    and never read by the components. *)
Definition TypeError : js_value := js_truthy (Some (js "TypeError")).
Definition SyntaxError : js_value := js_truthy (Some (js "SyntaxError")).

(** What [supabase.functions.invoke] settles to.  [payload] is what the
    handler reads with [data?.text] or [data?.imageUrl]: [None] when [data]
    is nullish or lacks the field. *)
Inductive invoke_result :=
| Resolved (payload : option jsstring) (error : js_value)
| Rejected (reason : js_value).

(** The value the [catch] block of a generate handler receives, if any:
    a truthy [error] field is thrown by [if (error) throw error], and a
    rejection is thrown by the [await]. *)
Definition caught (r : invoke_result) : option js_value :=
  match r with
  | Resolved _ error => if truthy error then Some error else None
  | Rejected reason => Some reason
  end.

(** The payload of a result that is a success for the handler: no error
    was thrown and the payload field is truthy. *)
Definition usable (r : invoke_result) : option jsstring :=
  match r with
  | Resolved (Some s) error =>
      if truthy error then None else if truthy_string s then Some s else None
  | _ => None
  end.

Definition nullish (v : js_value) : bool :=
  match v with
  | js_nullish => true
  | _ => false
  end.

(** [v.message] for a value that is not nullish. *)
Definition message (v : js_value) : option jsstring :=
  match v with
  | js_truthy m => m
  | _ => None
  end.


(** A toast shown to the user. *)
Record Toast := {
  title : string;
  description : jsstring;
  destructive : bool
}.

(** ** Asynchronous handlers

    A handler is a tree of operations.  [Do op k] performs a synchronous
    operation of the component and goes on with its result; [Await req k]
    issues the gateway call [req] and suspends: [k] is the rest of the
    [async] function, resumed when the call settles.  [Raise] is [throw]. *)
Section Async.
Context {Op : Type -> Type} {Request : Type}.

Inductive Async (A : Type) : Type :=
| Return (a : A)
| Raise (e : js_value)
| Do {X : Type} (op : Op X) (k : X -> Async A)
| Await (req : Request) (k : invoke_result -> Async A).

Global Arguments Return {A} a.
Global Arguments Raise {A} e.
Global Arguments Do {A X} op k.
Global Arguments Await {A} req k.

Fixpoint bind {A B} (p : Async A) (f : A -> Async B) : Async B :=
  match p with
  | Return a => f a
  | Raise e => Raise e
  | Do op k => Do op (fun x => bind (k x) f)
  | Await req k => Await req (fun r => bind (k r) f)
  end.

Global Instance Async_ret : MRet Async := fun A a => Return a.
Global Instance Async_bind : MBind Async := fun A B f p => bind p f.

(** One operation as a handler. *)
Definition call {X} (op : Op X) : Async X := Do op Return.

(** [try { p } catch (error) { h error }] *)
Fixpoint try_catch {A} (p : Async A) (h : js_value -> Async A) : Async A :=
  match p with
  | Return a => Return a
  | Raise e => h e
  | Do op k => Do op (fun x => try_catch (k x) h)
  | Await req k => Await req (fun r => try_catch (k r) h)
  end.

(** [try { p } finally { f }]: [f] runs on every way out of [p], and the
    completion of [p] is kept unless [f] itself throws. *)
Fixpoint try_finally {A} (p : Async A) (f : Async unit) : Async A :=
  match p with
  | Return a => bind f (fun _ => Return a)
  | Raise e => bind f (fun _ => Raise e)
  | Do op k => Do op (fun x => try_finally (k x) f)
  | Await req k => Await req (fun r => try_finally (k r) f)
  end.

(** How a run of a handler ends: it returns, it throws, or it is
    suspended at an [await] with the rest of the function. *)
Inductive outcome (A : Type) : Type :=
| Done (a : A)
| Threw (e : js_value)
| Awaiting (k : invoke_result -> Async A).

Global Arguments Done {A} a.
Global Arguments Threw {A} e.
Global Arguments Awaiting {A} k.

Context {World : Type}.
Variable perform : forall X, Op X -> World -> World * X.
Variable issue : Request -> World -> World.

(** Runs a handler up to its end or its first suspension. *)
Fixpoint run {A} (p : Async A) (w : World) : World * outcome A :=
  match p with
  | Return a => (w, Done a)
  | Raise e => (w, Threw e)
  | Do op k => let '(w', x) := perform _ op w in run (k x) w'
  | Await req k => (issue req w, Awaiting k)
  end.
End Async.

Arguments Async : clear implicits.

(** ** The text generator (src/components/AIStudio.tsx, [TextGenerator]) *)
Module TextGenerator.

Record GeneratedText := {
  id : jsstring;
  content : jsstring;
  prompt : jsstring;
  type : jsstring;
  timestamp : N
}.

(** The four [useState] cells of the component.  [prompt_state] and
    [type_state] are the variables [prompt] and [type] of the source. *)
Record State := {
  prompt_state : jsstring;
  type_state : jsstring;
  isGenerating : bool;
  texts : list GeneratedText
}.

Definition initial : State :=
  {| prompt_state := []; type_state := js "creative";
     isGenerating := false; texts := [] |}.

(** A string kept in [localStorage], by what [JSON.parse] does with it:
    [Unparsable raw] is a string that is not JSON text (the empty string
    included), [Stringified l] is [JSON.stringify(l)], and [OtherJSON]
    stands for JSON text of any other shape. *)
Inductive item :=
| Unparsable (raw : jsstring)
| Stringified (l : list GeneratedText)
| OtherJSON.

Inductive parsed :=
| Collection (l : list GeneratedText)
| Foreign.

Definition item_truthy (it : item) : bool :=
  match it with
  | Unparsable raw => truthy_string raw
  | Stringified _ | OtherJSON => true
  end.

Definition storage_key : string := "ai-studio-texts".

(** The body of the gateway request, [{ prompt, type }]. *)
Record Request := {
  function_name : string;
  body_prompt : jsstring;
  body_type : jsstring
}.

Inductive Op : Type -> Type :=
| setPrompt (s : jsstring) : Op unit
| setType (s : jsstring) : Op unit
| setIsGenerating (b : bool) : Op unit
| setTexts (f : list GeneratedText -> list GeneratedText) : Op unit
| setTexts_any (v : parsed) : Op unit
| toast (t : Toast) : Op unit
| console_error (label : string) (e : js_value) : Op unit
| Date_now : Op N
| getItem (key : string) : Op (option item)
| setItem (key : string) (v : item) : Op unit
| removeItem (key : string) : Op unit.

Abbreviation Handler := (Async Op Request).

(** What the outside can see of a run, newest first. *)
Inductive Event :=
| Invoked (req : Request)
| Toasted (t : Toast)
| Logged (label : string) (e : js_value).

(** The component and its surroundings.  Updates are applied to [state]
    at once: handlers never read it back (they read the variables of their
    own render), and React applies queued updates in the order they were
    made.  [texts_changed] records that [texts] holds a new array since the
    last render, which is what the dependency list [[texts]] of the saving
    effect looks at.  [ill_typed] is raised when [setTexts] is handed a
    parsed value that is not a collection; the typed model says nothing
    about the component from then on.  [clock] gives the successive
    readings of [Date.now()].  The store takes every write: a full or
    disabled [localStorage] is not modelled. *)
Record World := {
  state : State;
  texts_changed : bool;
  ill_typed : bool;
  localStorage : gmap string item;
  trace : list Event;
  clock : nat -> N;
  reads : nat
}.

Definition with_state (f : State -> State) (w : World) : World :=
  {| state := f (state w); texts_changed := texts_changed w;
     ill_typed := ill_typed w; localStorage := localStorage w;
     trace := trace w; clock := clock w; reads := reads w |}.

Definition with_texts (f : list GeneratedText -> list GeneratedText) (w : World) : World :=
  {| state := {| prompt_state := prompt_state (state w);
                 type_state := type_state (state w);
                 isGenerating := isGenerating (state w);
                 texts := f (texts (state w)) |};
     texts_changed := true;
     ill_typed := ill_typed w; localStorage := localStorage w;
     trace := trace w; clock := clock w; reads := reads w |}.

Definition with_storage (f : gmap string item -> gmap string item) (w : World) : World :=
  {| state := state w; texts_changed := texts_changed w;
     ill_typed := ill_typed w; localStorage := f (localStorage w);
     trace := trace w; clock := clock w; reads := reads w |}.

Definition emit (e : Event) (w : World) : World :=
  {| state := state w; texts_changed := texts_changed w;
     ill_typed := ill_typed w; localStorage := localStorage w;
     trace := e :: trace w; clock := clock w; reads := reads w |}.

Definition perform (X : Type) (op : Op X) (w : World) : World * X :=
  match op in Op X return World * X with
  | setPrompt s =>
      (with_state (fun st => {| prompt_state := s; type_state := type_state st;
                                isGenerating := isGenerating st; texts := texts st |}) w, tt)
  | setType s =>
      (with_state (fun st => {| prompt_state := prompt_state st; type_state := s;
                                isGenerating := isGenerating st; texts := texts st |}) w, tt)
  | setIsGenerating b =>
      (with_state (fun st => {| prompt_state := prompt_state st; type_state := type_state st;
                                isGenerating := b; texts := texts st |}) w, tt)
  | setTexts f => (with_texts f w, tt)
  | setTexts_any (Collection l) => (with_texts (fun _ => l) w, tt)
  | setTexts_any Foreign =>
      ({| state := state w; texts_changed := true; ill_typed := true;
          localStorage := localStorage w; trace := trace w;
          clock := clock w; reads := reads w |}, tt)
  | toast t => (emit (Toasted t) w, tt)
  | console_error label e => (emit (Logged label e) w, tt)
  | Date_now =>
      ({| state := state w; texts_changed := texts_changed w;
          ill_typed := ill_typed w; localStorage := localStorage w;
          trace := trace w; clock := clock w; reads := S (reads w) |},
       clock w (reads w))
  | getItem key => (w, localStorage w !! key)
  | setItem key v => (with_storage (insert key v) w, tt)
  | removeItem key => (with_storage (delete key) w, tt)
  end.

Definition issue (req : Request) (w : World) : World := emit (Invoked req) w.

Definition exec {A} (p : Handler A) (w : World) : World * outcome A :=
  run perform issue p w.

(** The world after one operation. *)
Definition after {X} (op : Op X) (w : World) : World := fst (perform X op w).

(** [await supabase.functions.invoke(fn, { body })]: a rejected promise
    is thrown at the [await]. *)
Definition invoke (fn : string) (p t : jsstring) : Handler (option jsstring * js_value) :=
  Await {| function_name := fn; body_prompt := p; body_type := t |}
    (fun r => match r with
              | Resolved data error => Return (data, error)
              | Rejected reason => Raise reason
              end).

(** [error.message]: reading a property of a nullish value throws. *)
Definition message_of (error : js_value) : Handler (option jsstring) :=
  match error with
  | js_nullish => Raise TypeError
  | js_falsy => Return None
  | js_truthy m => Return m
  end.

Definition prompt_required : Toast :=
  {| title := "Prompt required";
     description := js "Please enter a description for your text";
     destructive := true |}.

Definition text_generated : Toast :=
  {| title := "Text generated!";
     description := js "Your AI-generated text is ready";
     destructive := false |}.

Definition generic_failure : jsstring :=
  js "Failed to generate text. Please try again.".

Definition generation_failed (m : option jsstring) : Toast :=
  {| title := "Generation failed";
     description := or_else (default [] m) generic_failure;
     destructive := true |}.

(** [generateText], as created by the render whose variables are
    [snap]. *)
Definition generateText (snap : State) : Handler unit :=
  if blank (prompt_state snap) then
    call (toast prompt_required)
  else
    call (setIsGenerating true);;
    try_finally
      (try_catch
         ('(data, error) ← invoke "generate-text" (prompt_state snap) (type_state snap);
          if truthy error then Raise error
          else if truthy_string (default [] data) then
            now_id ← call Date_now;
            now_ts ← call Date_now;
            let newText :=
              {| id := toString now_id; content := default [] data;
                 prompt := prompt_state snap; type := type_state snap;
                 timestamp := now_ts |} in
            call (setTexts (fun prev => newText :: prev));;
            call (toast text_generated);;
            call (setPrompt [])
          else Return ())
         (fun error =>
            call (console_error "Error generating text:" error);;
            m ← message_of error;
            call (toast (generation_failed m))))
      (call (setIsGenerating false)).

(** The request [generateText] sends and the artifact it builds, for the
    render [snap], a payload, and the world in which the call settles. *)
Definition request_of (snap : State) : Request :=
  {| function_name := "generate-text";
     body_prompt := prompt_state snap; body_type := type_state snap |}.

Definition newText_of (snap : State) (payload : jsstring) (w : World) : GeneratedText :=
  {| id := toString (clock w (reads w)); content := payload;
     prompt := prompt_state snap; type := type_state snap;
     timestamp := clock w (S (reads w)) |}.

(** The [download] attribute [exportText] gives its link; [now] is the
    reading of [Date.now()]. *)
Definition exportText_download (text : GeneratedText) (now : N) : jsstring :=
  download_name (prompt text) now ".txt".

Definition regenerateText (snap : State) (text : GeneratedText) : Handler unit :=
  call (setPrompt (prompt text));;
  call (setType (type text));;
  generateText snap.

Definition deleted : Toast :=
  {| title := "Deleted"; description := js "Text has been removed";
     destructive := false |}.

Definition id_differs (i : jsstring) (t : GeneratedText) : bool :=
  negb (bool_decide (id t = i)).

Definition deleteText (i : jsstring) : Handler unit :=
  call (setTexts (fun prev => List.filter (id_differs i) prev));;
  call (toast deleted).

Definition cleared : Toast :=
  {| title := "Cleared"; description := js "All texts have been cleared";
     destructive := false |}.

(** The [onClick] of "Clear All"; [answer] is what [confirm] returns. *)
Definition clearAll (answer : bool) : Handler unit :=
  if answer then
    call (setTexts (fun _ => []));;
    call (removeItem storage_key);;
    call (toast cleared)
  else Return ().

Definition JSON_parse (it : item) : Handler parsed :=
  match it with
  | Unparsable _ => Raise SyntaxError
  | Stringified l => Return (Collection l)
  | OtherJSON => Return Foreign
  end.

(** The effect that loads the collection when the component mounts. *)
Definition loadEffect : Handler unit :=
  savedTexts ← call (getItem storage_key);
  match savedTexts with
  | Some it =>
      if item_truthy it then
        try_catch
          (parsed ← JSON_parse it; call (setTexts_any parsed))
          (fun error => call (console_error "Failed to load saved texts:" error))
      else Return ()
  | None => Return ()
  end.

(** The effect that saves the collection, for the render whose [texts]
    is [texts_now]. *)
Definition saveEffect (texts_now : list GeneratedText) : Handler unit :=
  if (0 <? length texts_now)%nat then
    call (setItem storage_key (Stringified texts_now))
  else Return ().

(** *** Renders, events and sessions *)

(** After a handler has run (to its end or to an [await]) React renders
    again and runs the saving effect if [texts] is a new array. *)
Definition commit (w : World) : World :=
  if texts_changed w then
    fst (exec (saveEffect (texts (state w)))
           {| state := state w; texts_changed := false;
              ill_typed := ill_typed w; localStorage := localStorage w;
              trace := trace w; clock := clock w; reads := reads w |})
  else w.

(** A running component: its world and the calls of [generateText] that
    are suspended at their [await], oldest first. *)
Record Session := {
  world : World;
  pending : list (invoke_result -> Handler unit)
}.

Definition handle (p : Handler unit) (s : Session) : Session :=
  let '(w, o) := exec p (world s) in
  {| world := commit w;
     pending := match o with
                | Awaiting k => pending s ++ [k]
                | _ => pending s
                end |}.

(** The first render and its effects, over a given store. *)
Definition boot (store : gmap string item) (time : nat -> N) : World :=
  {| state := initial; texts_changed := false; ill_typed := false;
     localStorage := store; trace := []; clock := time; reads := 0 |}.

Definition mount (store : gmap string item) (time : nat -> N) : Session :=
  let w1 := fst (exec loadEffect (boot store time)) in
  let w2 := fst (exec (saveEffect (texts initial)) w1) in
  {| world := commit w2; pending := [] |}.

(** What the user and the gateway can do to the component.  The guards
    are those of the JSX: a disabled button does not fire. *)
Inductive ui_event :=
| Change_prompt (s : jsstring)      (* Textarea onChange, suggestion buttons *)
| Change_type (s : jsstring)        (* Select onValueChange *)
| Click_generate                    (* disabled={isGenerating || !prompt.trim()} *)
| Ctrl_Enter                        (* Textarea onKeyDown *)
| Click_regenerate (card : nat)     (* disabled={isGenerating} *)
| Click_delete (card : nat)
| Click_clear (answer : bool)       (* rendered when texts.length > 0 *)
| Settle (call_no : nat) (r : invoke_result).

Definition dispatch (ev : ui_event) (s : Session) : Session :=
  let snap := state (world s) in
  match ev with
  | Change_prompt p => handle (call (setPrompt p)) s
  | Change_type t => handle (call (setType t)) s
  | Click_generate =>
      if isGenerating snap || blank (prompt_state snap) then s
      else handle (generateText snap) s
  | Ctrl_Enter => handle (generateText snap) s
  | Click_regenerate card =>
      match texts snap !! card with
      | Some text =>
          if isGenerating snap then s else handle (regenerateText snap text) s
      | None => s
      end
  | Click_delete card =>
      match texts snap !! card with
      | Some text => handle (deleteText (id text)) s
      | None => s
      end
  | Click_clear answer =>
      if (0 <? length (texts snap))%nat then handle (clearAll answer) s else s
  | Settle call_no r =>
      match pending s !! call_no with
      | Some k =>
          handle (k r) {| world := world s; pending := delete call_no (pending s) |}
      | None => s
      end
  end.

Definition play (evs : list ui_event) (s : Session) : Session :=
  foldl (fun s ev => dispatch ev s) s evs.

(** The gateway calls made so far. *)
Definition calls (w : World) : list Request :=
  omap (fun e => match e with Invoked r => Some r | _ => None end) (trace w).

Definition toasts (w : World) : list Toast :=
  omap (fun e => match e with Toasted t => Some t | _ => None end) (trace w).

(** *** Invariants of a running component *)

(** A handler run leaves the collection and the store alone, or makes
    [texts] a new array (which the next render looks at). *)
Definition quiet (w w' : World) : Prop :=
  texts_changed w' = true \/
  (texts_changed w' = texts_changed w /\
   texts (state w') = texts (state w) /\
   localStorage w' = localStorage w).

(** The rest of a generate call: resumed in any world with any answer, it
    ends in that turn, with the flag cleared. *)
Definition settles_cleanly (k : invoke_result -> Handler unit) : Prop :=
  forall r w,
    (forall k', snd (exec (k r) w) <> Awaiting k') /\
    isGenerating (state (fst (exec (k r) w))) = false /\
    quiet w (fst (exec (k r) w)).

(** Between two events every render has run its effects, and a collection
    that is not empty is the one in the store. *)
Definition persisted (w : World) : Prop :=
  texts_changed w = false /\
  (texts (state w) <> [] ->
   localStorage w !! storage_key = Some (Stringified (texts (state w)))).

Definition steady (s : Session) : Prop :=
  persisted (world s) /\ Forall settles_cleanly (pending s).

(** At most one call is outstanding, and the flag is set exactly while one
    is. *)
Definition single_flight (s : Session) : Prop :=
  (isGenerating (state (world s)) = false /\ pending s = []) \/
  (isGenerating (state (world s)) = true /\ exists k, pending s = [k]).

Definition by_keyboard (ev : ui_event) : bool :=
  match ev with
  | Ctrl_Enter => true
  | _ => false
  end.

(** *** The counters of a card *)

(** [text.trim().split(/\s+/).filter(word => word.length > 0).length] *)
Definition getWordCount (text : jsstring) : nat :=
  length (List.filter (fun word => (0 <? length word)%nat)
            (split_white_space (trim text))).

Definition getCharacterCount (text : jsstring) : nat := length text.

(** *** The calls in flight *)

(** [k] is the rest of a call of [generateText] made by the render [snap]:
    what it does in each of the four ways the call can settle. *)
Definition resumes (snap : State) (k : invoke_result -> Handler unit) : Prop :=
  (forall r payload w,
      usable r = Some payload ->
      exec (k r) w
      = (after (setIsGenerating false)
           (after (setPrompt [])
              (after (toast text_generated)
                 (after (setTexts (cons (newText_of snap payload w)))
                    (after Date_now (after Date_now w))))),
         Done ())) /\
  (forall r w,
      caught r = None -> usable r = None ->
      exec (k r) w = (after (setIsGenerating false) w, Done ())) /\
  (forall r e w,
      caught r = Some e -> nullish e = false ->
      exec (k r) w
      = (after (setIsGenerating false)
           (after (toast (generation_failed (message e)))
              (after (console_error "Error generating text:" e) w)),
         Done ())) /\
  (forall r e w,
      caught r = Some e -> nullish e = true ->
      exec (k r) w
      = (after (setIsGenerating false)
           (after (console_error "Error generating text:" e) w),
         Threw TypeError)).

(** Every suspended call is the rest of a [generateText], and every render
    has run its effects. *)
Definition generated (s : Session) : Prop :=
  texts_changed (world s) = false /\
  Forall (fun k => exists snap, blank (prompt_state snap) = false /\ resumes snap k)
    (pending s).

(** The events that answer a call; all others come from the user. *)
Definition by_gateway (ev : ui_event) : bool :=
  match ev with
  | Settle _ _ => true
  | _ => false
  end.

(** The events whose handlers call [setTexts]. *)
Definition edits_collection (ev : ui_event) : bool :=
  match ev with
  | Click_delete _ | Click_clear _ | Settle _ _ => true
  | _ => false
  end.

End TextGenerator.

(** ** The image generator (the unnamed part, [ImageGenerator]) *)
Module ImageGenerator.

Record GeneratedImage := {
  id : jsstring;
  url : jsstring;
  prompt : jsstring;
  timestamp : N
}.

(** The [useState] cells of the component; [prompt_state] is the
    variable [prompt] of the source. *)
Record State := {
  prompt_state : jsstring;
  isGenerating : bool;
  images : list GeneratedImage;
  hoveredImage : option jsstring;
  selectedImage : option GeneratedImage;
  imageLoading : gset jsstring;
  imageErrors : gset jsstring
}.

Definition initial : State :=
  {| prompt_state := []; isGenerating := false; images := [];
     hoveredImage := None; selectedImage := None;
     imageLoading := ∅; imageErrors := ∅ |}.

(** A string kept in [localStorage], by what [JSON.parse] does with it,
    as for the text generator. *)
Inductive item :=
| Unparsable (raw : jsstring)
| Stringified (l : list GeneratedImage)
| OtherJSON.

Inductive parsed :=
| Collection (l : list GeneratedImage)
| Foreign.

Definition item_truthy (it : item) : bool :=
  match it with
  | Unparsable raw => truthy_string raw
  | Stringified _ | OtherJSON => true
  end.

Definition storage_key : string := "ai-studio-images".

(** The body of the gateway request, [{ prompt }]. *)
Record Request := {
  function_name : string;
  body_prompt : jsstring
}.

Inductive Op : Type -> Type :=
| setPrompt (s : jsstring) : Op unit
| setIsGenerating (b : bool) : Op unit
| setImages (f : list GeneratedImage -> list GeneratedImage) : Op unit
| setImages_any (v : parsed) : Op unit
| setHoveredImage (h : option jsstring) : Op unit
| setSelectedImage (i : option GeneratedImage) : Op unit
| setImageLoading (f : gset jsstring -> gset jsstring) : Op unit
| setImageErrors (f : gset jsstring -> gset jsstring) : Op unit
| toast (t : Toast) : Op unit
| console_error (label : string) (e : js_value) : Op unit
| Date_now : Op N
| getItem (key : string) : Op (option item)
| setItem (key : string) (v : item) : Op unit
| removeItem (key : string) : Op unit.

Abbreviation Handler := (Async Op Request).

Inductive Event :=
| Invoked (req : Request)
| Toasted (t : Toast)
| Logged (label : string) (e : js_value).

(** The component and its surroundings, as for the text generator;
    [images_changed] is the dependency [[images]] of the saving effect. *)
Record World := {
  state : State;
  images_changed : bool;
  ill_typed : bool;
  localStorage : gmap string item;
  trace : list Event;
  clock : nat -> N;
  reads : nat
}.

Definition with_state (f : State -> State) (w : World) : World :=
  {| state := f (state w); images_changed := images_changed w;
     ill_typed := ill_typed w; localStorage := localStorage w;
     trace := trace w; clock := clock w; reads := reads w |}.

Definition with_images (f : list GeneratedImage -> list GeneratedImage) (w : World) : World :=
  {| state := {| prompt_state := prompt_state (state w);
                 isGenerating := isGenerating (state w);
                 images := f (images (state w));
                 hoveredImage := hoveredImage (state w);
                 selectedImage := selectedImage (state w);
                 imageLoading := imageLoading (state w);
                 imageErrors := imageErrors (state w) |};
     images_changed := true;
     ill_typed := ill_typed w; localStorage := localStorage w;
     trace := trace w; clock := clock w; reads := reads w |}.

Definition with_storage (f : gmap string item -> gmap string item) (w : World) : World :=
  {| state := state w; images_changed := images_changed w;
     ill_typed := ill_typed w; localStorage := f (localStorage w);
     trace := trace w; clock := clock w; reads := reads w |}.

Definition emit (e : Event) (w : World) : World :=
  {| state := state w; images_changed := images_changed w;
     ill_typed := ill_typed w; localStorage := localStorage w;
     trace := e :: trace w; clock := clock w; reads := reads w |}.

Definition perform (X : Type) (op : Op X) (w : World) : World * X :=
  match op in Op X return World * X with
  | setPrompt s =>
      (with_state (fun st =>
         {| prompt_state := s; isGenerating := isGenerating st;
            images := images st; hoveredImage := hoveredImage st;
            selectedImage := selectedImage st;
            imageLoading := imageLoading st; imageErrors := imageErrors st |}) w, tt)
  | setIsGenerating b =>
      (with_state (fun st =>
         {| prompt_state := prompt_state st; isGenerating := b;
            images := images st; hoveredImage := hoveredImage st;
            selectedImage := selectedImage st;
            imageLoading := imageLoading st; imageErrors := imageErrors st |}) w, tt)
  | setImages f => (with_images f w, tt)
  | setImages_any (Collection l) => (with_images (fun _ => l) w, tt)
  | setImages_any Foreign =>
      ({| state := state w; images_changed := true; ill_typed := true;
          localStorage := localStorage w; trace := trace w;
          clock := clock w; reads := reads w |}, tt)
  | setHoveredImage h =>
      (with_state (fun st =>
         {| prompt_state := prompt_state st; isGenerating := isGenerating st;
            images := images st; hoveredImage := h;
            selectedImage := selectedImage st;
            imageLoading := imageLoading st; imageErrors := imageErrors st |}) w, tt)
  | setSelectedImage i =>
      (with_state (fun st =>
         {| prompt_state := prompt_state st; isGenerating := isGenerating st;
            images := images st; hoveredImage := hoveredImage st;
            selectedImage := i;
            imageLoading := imageLoading st; imageErrors := imageErrors st |}) w, tt)
  | setImageLoading f =>
      (with_state (fun st =>
         {| prompt_state := prompt_state st; isGenerating := isGenerating st;
            images := images st; hoveredImage := hoveredImage st;
            selectedImage := selectedImage st;
            imageLoading := f (imageLoading st); imageErrors := imageErrors st |}) w, tt)
  | setImageErrors f =>
      (with_state (fun st =>
         {| prompt_state := prompt_state st; isGenerating := isGenerating st;
            images := images st; hoveredImage := hoveredImage st;
            selectedImage := selectedImage st;
            imageLoading := imageLoading st; imageErrors := f (imageErrors st) |}) w, tt)
  | toast t => (emit (Toasted t) w, tt)
  | console_error label e => (emit (Logged label e) w, tt)
  | Date_now =>
      ({| state := state w; images_changed := images_changed w;
          ill_typed := ill_typed w; localStorage := localStorage w;
          trace := trace w; clock := clock w; reads := S (reads w) |},
       clock w (reads w))
  | getItem key => (w, localStorage w !! key)
  | setItem key v => (with_storage (insert key v) w, tt)
  | removeItem key => (with_storage (delete key) w, tt)
  end.

Definition issue (req : Request) (w : World) : World := emit (Invoked req) w.

Definition exec {A} (p : Handler A) (w : World) : World * outcome A :=
  run perform issue p w.

(** The world after one operation. *)
Definition after {X} (op : Op X) (w : World) : World := fst (perform X op w).

Definition invoke (fn : string) (p : jsstring) : Handler (option jsstring * js_value) :=
  Await {| function_name := fn; body_prompt := p |}
    (fun r => match r with
              | Resolved data error => Return (data, error)
              | Rejected reason => Raise reason
              end).

Definition message_of (error : js_value) : Handler (option jsstring) :=
  match error with
  | js_nullish => Raise TypeError
  | js_falsy => Return None
  | js_truthy m => Return m
  end.

Definition prompt_required : Toast :=
  {| title := "Prompt required";
     description := js "Please enter a description for your image";
     destructive := true |}.

Definition image_generated : Toast :=
  {| title := "Image generated!";
     description := js "Your AI-generated image is ready";
     destructive := false |}.

Definition generic_failure : jsstring :=
  js "Failed to generate image. Please try again.".

Definition generation_failed (m : option jsstring) : Toast :=
  {| title := "Generation failed";
     description := or_else (default [] m) generic_failure;
     destructive := true |}.

(** [generateImage], as created by the render whose variables are
    [snap]. *)
Definition generateImage (snap : State) : Handler unit :=
  if blank (prompt_state snap) then
    call (toast prompt_required)
  else
    call (setIsGenerating true);;
    try_finally
      (try_catch
         ('(data, error) ← invoke "generate-image" (prompt_state snap);
          if truthy error then Raise error
          else if truthy_string (default [] data) then
            now_id ← call Date_now;
            now_ts ← call Date_now;
            let newImage :=
              {| id := toString now_id; url := default [] data;
                 prompt := prompt_state snap; timestamp := now_ts |} in
            call (setImages (fun prev => newImage :: prev));;
            call (setImageLoading (fun prev => prev ∪ {[ id newImage ]}));;
            call (toast image_generated);;
            call (setPrompt [])
          else Return ())
         (fun error =>
            call (console_error "Error generating image:" error);;
            m ← message_of error;
            call (toast (generation_failed m))))
      (call (setIsGenerating false)).

Definition request_of (snap : State) : Request :=
  {| function_name := "generate-image"; body_prompt := prompt_state snap |}.

Definition newImage_of (snap : State) (payload : jsstring) (w : World) : GeneratedImage :=
  {| id := toString (clock w (reads w)); url := payload;
     prompt := prompt_state snap; timestamp := clock w (S (reads w)) |}.

(** The [download] attribute [downloadImage] gives its link, once the
    image has been fetched. *)
Definition downloadImage_download (prompt : jsstring) (now : N) : jsstring :=
  download_name prompt now ".png".

Definition regenerateImage (snap : State) (image : GeneratedImage) : Handler unit :=
  call (setPrompt (prompt image));;
  generateImage snap.

Definition handleImageLoad (imageId : jsstring) : Handler unit :=
  call (setImageLoading (fun prev => prev ∖ {[ imageId ]})).

Definition load_failed : Toast :=
  {| title := "Image failed to load";
     description := js "The image could not be displayed";
     destructive := true |}.

Definition handleImageError (imageId : jsstring) : Handler unit :=
  call (setImageLoading (fun prev => prev ∖ {[ imageId ]}));;
  call (setImageErrors (fun prev => prev ∪ {[ imageId ]}));;
  call (toast load_failed).

Definition cleared : Toast :=
  {| title := "Cleared"; description := js "All images have been cleared";
     destructive := false |}.

(** The [onClick] of "Clear All"; [answer] is what [confirm] returns. *)
Definition clearAll (answer : bool) : Handler unit :=
  if answer then
    call (setImages (fun _ => []));;
    call (removeItem storage_key);;
    call (toast cleared)
  else Return ().

Definition JSON_parse (it : item) : Handler parsed :=
  match it with
  | Unparsable _ => Raise SyntaxError
  | Stringified l => Return (Collection l)
  | OtherJSON => Return Foreign
  end.

Definition loadEffect : Handler unit :=
  savedImages ← call (getItem storage_key);
  match savedImages with
  | Some it =>
      if item_truthy it then
        try_catch
          (parsed ← JSON_parse it; call (setImages_any parsed))
          (fun error => call (console_error "Failed to load saved images:" error))
      else Return ()
  | None => Return ()
  end.

Definition saveEffect (images_now : list GeneratedImage) : Handler unit :=
  if (0 <? length images_now)%nat then
    call (setItem storage_key (Stringified images_now))
  else Return ().

(** *** Renders, events and sessions *)

Definition commit (w : World) : World :=
  if images_changed w then
    fst (exec (saveEffect (images (state w)))
           {| state := state w; images_changed := false;
              ill_typed := ill_typed w; localStorage := localStorage w;
              trace := trace w; clock := clock w; reads := reads w |})
  else w.

Record Session := {
  world : World;
  pending : list (invoke_result -> Handler unit)
}.

Definition handle (p : Handler unit) (s : Session) : Session :=
  let '(w, o) := exec p (world s) in
  {| world := commit w;
     pending := match o with
                | Awaiting k => pending s ++ [k]
                | _ => pending s
                end |}.

Definition boot (store : gmap string item) (time : nat -> N) : World :=
  {| state := initial; images_changed := false; ill_typed := false;
     localStorage := store; trace := []; clock := time; reads := 0 |}.

Definition mount (store : gmap string item) (time : nat -> N) : Session :=
  let w1 := fst (exec loadEffect (boot store time)) in
  let w2 := fst (exec (saveEffect (images initial)) w1) in
  {| world := commit w2; pending := [] |}.

(** The guards are those of the JSX.  The lightbox offers a second
    "Regenerate" button for the selected image. *)
Inductive ui_event :=
| Change_prompt (s : jsstring)      (* Textarea onChange, suggestion buttons *)
| Click_generate                    (* disabled={isGenerating || !prompt.trim()} *)
| Ctrl_Enter                        (* Textarea onKeyDown *)
| Click_regenerate (card : nat)     (* disabled={isGenerating} *)
| Click_regenerate_selected         (* disabled={isGenerating} *)
| Mouse_enter (card : nat)
| Mouse_leave
| Click_select (card : nat)
| Close_lightbox
| Image_loaded (card : nat)         (* img onLoad *)
| Image_failed (card : nat)         (* img onError *)
| Click_clear (answer : bool)       (* rendered when images.length > 0 *)
| Settle (call_no : nat) (r : invoke_result).

Definition dispatch (ev : ui_event) (s : Session) : Session :=
  let snap := state (world s) in
  match ev with
  | Change_prompt p => handle (call (setPrompt p)) s
  | Click_generate =>
      if isGenerating snap || blank (prompt_state snap) then s
      else handle (generateImage snap) s
  | Ctrl_Enter => handle (generateImage snap) s
  | Click_regenerate card =>
      match images snap !! card with
      | Some image =>
          if isGenerating snap then s else handle (regenerateImage snap image) s
      | None => s
      end
  | Click_regenerate_selected =>
      match selectedImage snap with
      | Some image =>
          if isGenerating snap then s else handle (regenerateImage snap image) s
      | None => s
      end
  | Mouse_enter card =>
      match images snap !! card with
      | Some image => handle (call (setHoveredImage (Some (id image)))) s
      | None => s
      end
  | Mouse_leave => handle (call (setHoveredImage None)) s
  | Click_select card =>
      match images snap !! card with
      | Some image => handle (call (setSelectedImage (Some image))) s
      | None => s
      end
  | Close_lightbox => handle (call (setSelectedImage None)) s
  | Image_loaded card =>
      match images snap !! card with
      | Some image => handle (handleImageLoad (id image)) s
      | None => s
      end
  | Image_failed card =>
      match images snap !! card with
      | Some image => handle (handleImageError (id image)) s
      | None => s
      end
  | Click_clear answer =>
      if (0 <? length (images snap))%nat then handle (clearAll answer) s else s
  | Settle call_no r =>
      match pending s !! call_no with
      | Some k =>
          handle (k r) {| world := world s; pending := delete call_no (pending s) |}
      | None => s
      end
  end.

Definition play (evs : list ui_event) (s : Session) : Session :=
  foldl (fun s ev => dispatch ev s) s evs.

Definition calls (w : World) : list Request :=
  omap (fun e => match e with Invoked r => Some r | _ => None end) (trace w).

Definition toasts (w : World) : list Toast :=
  omap (fun e => match e with Toasted t => Some t | _ => None end) (trace w).

(** *** Invariants of a running component, as for the text generator *)

Definition quiet (w w' : World) : Prop :=
  images_changed w' = true \/
  (images_changed w' = images_changed w /\
   images (state w') = images (state w) /\
   localStorage w' = localStorage w).

Definition settles_cleanly (k : invoke_result -> Handler unit) : Prop :=
  forall r w,
    (forall k', snd (exec (k r) w) <> Awaiting k') /\
    isGenerating (state (fst (exec (k r) w))) = false /\
    quiet w (fst (exec (k r) w)).

Definition persisted (w : World) : Prop :=
  images_changed w = false /\
  (images (state w) <> [] ->
   localStorage w !! storage_key = Some (Stringified (images (state w)))).

Definition steady (s : Session) : Prop :=
  persisted (world s) /\ Forall settles_cleanly (pending s).

Definition single_flight (s : Session) : Prop :=
  (isGenerating (state (world s)) = false /\ pending s = []) \/
  (isGenerating (state (world s)) = true /\ exists k, pending s = [k]).

Definition by_keyboard (ev : ui_event) : bool :=
  match ev with
  | Ctrl_Enter => true
  | _ => false
  end.

(** *** The calls in flight, as for the text generator *)

Definition resumes (snap : State) (k : invoke_result -> Handler unit) : Prop :=
  (forall r payload w,
      usable r = Some payload ->
      exec (k r) w
      = (after (setIsGenerating false)
           (after (setPrompt [])
              (after (toast image_generated)
                 (after (setImageLoading
                           (fun prev => prev ∪ {[ id (newImage_of snap payload w) ]}))
                    (after (setImages (cons (newImage_of snap payload w)))
                       (after Date_now (after Date_now w)))))),
         Done ())) /\
  (forall r w,
      caught r = None -> usable r = None ->
      exec (k r) w = (after (setIsGenerating false) w, Done ())) /\
  (forall r e w,
      caught r = Some e -> nullish e = false ->
      exec (k r) w
      = (after (setIsGenerating false)
           (after (toast (generation_failed (message e)))
              (after (console_error "Error generating image:" e) w)),
         Done ())) /\
  (forall r e w,
      caught r = Some e -> nullish e = true ->
      exec (k r) w
      = (after (setIsGenerating false)
           (after (console_error "Error generating image:" e) w),
         Threw TypeError)).

Definition generated (s : Session) : Prop :=
  images_changed (world s) = false /\
  Forall (fun k => exists snap, blank (prompt_state snap) = false /\ resumes snap k)
    (pending s).

Definition by_gateway (ev : ui_event) : bool :=
  match ev with
  | Settle _ _ => true
  | _ => false
  end.

(** The events of a picture itself, [onLoad] and [onError]. *)
Definition by_picture (ev : ui_event) : bool :=
  match ev with
  | Image_loaded _ | Image_failed _ => true
  | _ => false
  end.

(** The events whose handlers call [setImages]. *)
Definition edits_collection (ev : ui_event) : bool :=
  match ev with
  | Click_clear _ | Settle _ _ => true
  | _ => false
  end.

End ImageGenerator.

(** ** The studio shell (src/components/AIStudio.tsx, [AIStudio])

    The shell owns one state, the active tab, and keeps it in
    [localStorage] as a plain string. *)
Module AIStudio.

(** The two [TabsTrigger]s and the [value] each one reports. *)
Inductive trigger := image_trigger | text_trigger.

Definition value (t : trigger) : jsstring :=
  match t with
  | image_trigger => js "image"
  | text_trigger => js "text"
  end.

Definition storage_key : string := "ai-studio-active-tab".

Inductive Op : Type -> Type :=
| setActiveTab (v : jsstring) : Op unit
| getItem (key : string) : Op (option jsstring)
| setItem (key : string) (v : jsstring) : Op unit.

(** The shell makes no gateway call. *)
Abbreviation Handler := (Async Op Empty_set).

(** [activeTab] is the state; [rendered] is its value in the last render,
    which the dependency list [[activeTab]] of the saving effect is compared
    with (strings compare by value). *)
Record World := {
  activeTab : jsstring;
  rendered : jsstring;
  localStorage : gmap string jsstring
}.

Definition perform (X : Type) (op : Op X) (w : World) : World * X :=
  match op in Op X return World * X with
  | setActiveTab v =>
      ({| activeTab := v; rendered := rendered w; localStorage := localStorage w |}, tt)
  | getItem key => (w, localStorage w !! key)
  | setItem key v =>
      ({| activeTab := activeTab w; rendered := rendered w;
          localStorage := <[key := v]> (localStorage w) |}, tt)
  end.

Definition exec {A} (p : Handler A) (w : World) : World * outcome A :=
  run perform (fun _ w => w) p w.

(** The first effect: a saved tab is taken only if it is one of the two
    values. *)
Definition loadEffect : Handler unit :=
  savedTab ← call (getItem storage_key);
  match savedTab with
  | Some v =>
      if truthy_string v && (bool_decide (v = js "image") || bool_decide (v = js "text"))
      then call (setActiveTab v)
      else Return ()
  | None => Return ()
  end.

(** The second effect, for the render whose [activeTab] is [tab_now]. *)
Definition saveEffect (tab_now : jsstring) : Handler unit :=
  call (setItem storage_key tab_now).

(** A render after a handler: nothing happens when the state has the value
    it had, otherwise the saving effect runs for the new value. *)
Definition commit (w : World) : World :=
  if bool_decide (activeTab w = rendered w) then w
  else
    let w' := fst (exec (saveEffect (activeTab w)) w) in
    {| activeTab := activeTab w'; rendered := activeTab w';
       localStorage := localStorage w' |}.

Definition initial_tab : jsstring := js "image".

(** The first render and its two effects, then the render that a restored
    tab causes. *)
Definition mount (store : gmap string jsstring) : World :=
  let w0 := {| activeTab := initial_tab; rendered := initial_tab;
               localStorage := store |} in
  let w1 := fst (exec loadEffect w0) in
  let w2 := fst (exec (saveEffect initial_tab) w1) in
  commit w2.

(** [onValueChange={setActiveTab}] *)
Definition select (t : trigger) (w : World) : World :=
  commit (fst (exec (call (setActiveTab (value t))) w)).

Definition play (ts : list trigger) (w : World) : World :=
  foldl (fun w t => select t w) w ts.

(** What the shell keeps, relative to the store it was mounted over: the
    state is rendered, it is one of the two tabs, it is what the store holds
    under the key, and the other keys are as they were. *)
Definition tidy (store : gmap string jsstring) (w : World) : Prop :=
  rendered w = activeTab w /\
  (activeTab w = js "image" \/ activeTab w = js "text") /\
  localStorage w !! storage_key = Some (activeTab w) /\
  (forall key, key <> storage_key -> localStorage w !! key = store !! key).

End AIStudio.

(** ** Sample inputs

    The scenarios of the specification, used to instantiate the theorems
    below. *)
Module Samples.

Definition time : nat -> N := fun n => 1700000000000 + N.of_nat n.

Definition story : jsstring := js "Write a short story".
Definition creative : jsstring := js "creative".
Definition once : jsstring := js "Once upon a time".

Definition story_render : TextGenerator.State :=
  {| TextGenerator.prompt_state := story;
     TextGenerator.type_state := creative;
     TextGenerator.isGenerating := false;
     TextGenerator.texts := [] |}.

Definition story_text : TextGenerator.GeneratedText :=
  {| TextGenerator.id := toString 1700000000000;
     TextGenerator.content := once;
     TextGenerator.prompt := story;
     TextGenerator.type := creative;
     TextGenerator.timestamp := 1700000000001 |}.

Definition text_session : TextGenerator.Session := TextGenerator.mount ∅ time.

Definition cityscape : jsstring := js "A futuristic cyberpunk cityscape at night".
Definition picture : jsstring := js "https://x/1.png".

Definition cityscape_render : ImageGenerator.State :=
  {| ImageGenerator.prompt_state := cityscape;
     ImageGenerator.isGenerating := false;
     ImageGenerator.images := [];
     ImageGenerator.hoveredImage := None;
     ImageGenerator.selectedImage := None;
     ImageGenerator.imageLoading := ∅;
     ImageGenerator.imageErrors := ∅ |}.

Definition cityscape_image : ImageGenerator.GeneratedImage :=
  {| ImageGenerator.id := toString 1700000000000;
     ImageGenerator.url := picture;
     ImageGenerator.prompt := cityscape;
     ImageGenerator.timestamp := 1700000000001 |}.

Definition image_session : ImageGenerator.Session := ImageGenerator.mount ∅ time.

(** A gateway answer with a payload, one with an error message, and one
    with neither. *)
Definition answer (payload : jsstring) : invoke_result :=
  Resolved (Some payload) js_nullish.
Definition refusal : invoke_result :=
  Resolved None (js_truthy (Some (js "Rate limit exceeded"))).

(** A prompt of a space, a tab, a line feed and a no-break space. *)
Definition spaces : jsstring := [32; 9; 10; 160].

Definition spaces_render : TextGenerator.State :=
  {| TextGenerator.prompt_state := spaces;
     TextGenerator.type_state := creative;
     TextGenerator.isGenerating := false;
     TextGenerator.texts := [story_text] |}.

Definition spaces_render_image : ImageGenerator.State :=
  {| ImageGenerator.prompt_state := spaces;
     ImageGenerator.isGenerating := false;
     ImageGenerator.images := [cityscape_image];
     ImageGenerator.hoveredImage := None;
     ImageGenerator.selectedImage := None;
     ImageGenerator.imageLoading := ∅;
     ImageGenerator.imageErrors := ∅ |}.

Definition hello : jsstring := js "hello".
Definition casual : jsstring := js "casual".
Definition export_prompt : jsstring := js "A: B? C!".

End Samples.

(** * Properties *)

(** ** Strings *)

Lemma trimStart_nil_iff s : trimStart s = [] <-> forallb is_white_space s = true.
Proof.
  induction s as [| c s IH]; simpl; [tauto |].
  destruct (is_white_space c); simpl; [exact IH |].
  split; discriminate.
Qed.

Lemma forallb_trimStart s :
  forallb is_white_space s = true -> trimStart s = [].
Proof. apply trimStart_nil_iff. Qed.

(** A prompt is blank exactly when every code unit of it is white space. *)
Lemma blank_iff s : blank s = true <-> forallb is_white_space s = true.
Proof.
  unfold blank, trim, trimEnd. split.
  - intros H. destruct (trimStart s) as [| c t] eqn:E.
    + now apply trimStart_nil_iff.
    + exfalso. simpl in H.
      assert (Hc : is_white_space c = false).
      { destruct s as [| d s']; [discriminate |]. simpl in E.
        revert E. clear. revert d. induction s' as [| e s' IH]; intros d; simpl.
        - destruct (is_white_space d) eqn:Hd; [discriminate |]. congruence.
        - destruct (is_white_space d) eqn:Hd; [| congruence]. apply IH. }
      assert (Hne : trimStart (rev t ++ [c]) <> []).
      { clear -Hc. induction (rev t) as [| d r IH]; simpl.
        - rewrite Hc. discriminate.
        - destruct (is_white_space d); [exact IH | discriminate]. }
      destruct (trimStart (rev t ++ [c])) as [| x r] eqn:E'; [congruence |].
      simpl in H. destruct (rev r); discriminate.
  - intros H. rewrite (forallb_trimStart _ H). reflexivity.
Qed.

(** ** The text generator *)
Module TextFacts.
Import TextGenerator.

Lemma commit_state w : state (commit w) = state w.
Proof.
  unfold commit. destruct (texts_changed w); [| reflexivity].
  unfold saveEffect. destruct (0 <? length (texts (state w)))%nat; reflexivity.
Qed.

Lemma commit_trace w : trace (commit w) = trace w.
Proof.
  unfold commit. destruct (texts_changed w); [| reflexivity].
  unfold saveEffect. destruct (0 <? length (texts (state w)))%nat; reflexivity.
Qed.

Lemma commit_changed w : texts_changed (commit w) = false.
Proof.
  unfold commit. destruct (texts_changed w) eqn:E; [| exact E].
  unfold saveEffect. destruct (0 <? length (texts (state w)))%nat; reflexivity.
Qed.

(** What a render writes: the whole collection, when it is a new array
    and not empty. *)
Lemma commit_storage w :
  localStorage (commit w) =
  if texts_changed w && (0 <? length (texts (state w)))%nat
  then <[storage_key := Stringified (texts (state w))]> (localStorage w)
  else localStorage w.
Proof.
  unfold commit. destruct (texts_changed w); [| reflexivity].
  unfold saveEffect. destruct (0 <? length (texts (state w)))%nat; reflexivity.
Qed.

Lemma generateText_blank snap w :
  blank (prompt_state snap) = true ->
  exec (generateText snap) w = (after (toast prompt_required) w, Done ()).
Proof. intros H. unfold generateText. rewrite H. reflexivity. Qed.

(** [generateText] on a prompt that is not blank: it raises the flag,
    issues one call and suspends; the four ways the rest of it can go
    when the call settles, in the world [w2] of that moment. *)
Lemma generateText_steps snap w :
  blank (prompt_state snap) = false ->
  exists k,
    exec (generateText snap) w
    = (issue (request_of snap) (after (setIsGenerating true) w), Awaiting k) /\
    (forall r payload w2,
        usable r = Some payload ->
        exec (k r) w2
        = (after (setIsGenerating false)
             (after (setPrompt [])
                (after (toast text_generated)
                   (after (setTexts (cons (newText_of snap payload w2)))
                      (after Date_now (after Date_now w2))))),
           Done ())) /\
    (forall r w2,
        caught r = None -> usable r = None ->
        exec (k r) w2 = (after (setIsGenerating false) w2, Done ())) /\
    (forall r e w2,
        caught r = Some e -> nullish e = false ->
        exec (k r) w2
        = (after (setIsGenerating false)
             (after (toast (generation_failed (message e)))
                (after (console_error "Error generating text:" e) w2)),
           Done ())) /\
    (forall r e w2,
        caught r = Some e -> nullish e = true ->
        exec (k r) w2
        = (after (setIsGenerating false)
             (after (console_error "Error generating text:" e) w2),
           Threw TypeError)).
Proof.
  intros Hb. unfold generateText. rewrite Hb.
  eexists. split; [reflexivity |].
  repeat split.
  - intros [[s |] error | reason] payload w2 Hu; simpl in Hu; try discriminate.
    destruct error; simpl in Hu; try discriminate;
      destruct s; simpl in Hu; try discriminate;
      injection Hu as <-; reflexivity.
  - intros [data error | reason] w2 Hc Hu; simpl in Hc, Hu; [| discriminate].
    destruct error; simpl in Hc, Hu; try discriminate;
      destruct data as [[| c s] |]; simpl in Hu; try discriminate; reflexivity.
  - intros [data error | reason] e w2 Hc Hn; simpl in Hc.
    + destruct error; simpl in Hc; try discriminate.
      injection Hc as <-. reflexivity.
    + injection Hc as <-. destruct reason; try discriminate; reflexivity.
  - intros [data error | reason] e w2 Hc Hn; simpl in Hc.
    + destruct error; simpl in Hc; try discriminate.
      injection Hc as <-. discriminate.
    + injection Hc as <-. destruct reason; try discriminate; reflexivity.
Qed.

End TextFacts.

(** ** The image generator *)
Module ImageFacts.
Import ImageGenerator.

Lemma commit_state_image w : state (commit w) = state w.
Proof.
  unfold commit. destruct (images_changed w); [| reflexivity].
  unfold saveEffect. destruct (0 <? length (images (state w)))%nat; reflexivity.
Qed.

Lemma commit_trace_image w : trace (commit w) = trace w.
Proof.
  unfold commit. destruct (images_changed w); [| reflexivity].
  unfold saveEffect. destruct (0 <? length (images (state w)))%nat; reflexivity.
Qed.

Lemma commit_changed_image w : images_changed (commit w) = false.
Proof.
  unfold commit. destruct (images_changed w) eqn:E; [| exact E].
  unfold saveEffect. destruct (0 <? length (images (state w)))%nat; reflexivity.
Qed.

Lemma commit_storage_image w :
  localStorage (commit w) =
  if images_changed w && (0 <? length (images (state w)))%nat
  then <[storage_key := Stringified (images (state w))]> (localStorage w)
  else localStorage w.
Proof.
  unfold commit. destruct (images_changed w); [| reflexivity].
  unfold saveEffect. destruct (0 <? length (images (state w)))%nat; reflexivity.
Qed.

Lemma generateImage_blank snap w :
  blank (prompt_state snap) = true ->
  exec (generateImage snap) w = (after (toast prompt_required) w, Done ()).
Proof. intros H. unfold generateImage. rewrite H. reflexivity. Qed.

(** [generateImage] on a prompt that is not blank, as
    [TextFacts.generateText_steps]; a success also marks the new image as
    loading. *)
Lemma generateImage_steps snap w :
  blank (prompt_state snap) = false ->
  exists k,
    exec (generateImage snap) w
    = (issue (request_of snap) (after (setIsGenerating true) w), Awaiting k) /\
    (forall r payload w2,
        usable r = Some payload ->
        exec (k r) w2
        = (after (setIsGenerating false)
             (after (setPrompt [])
                (after (toast image_generated)
                   (after (setImageLoading
                             (fun prev => prev ∪ {[ id (newImage_of snap payload w2) ]}))
                      (after (setImages (cons (newImage_of snap payload w2)))
                         (after Date_now (after Date_now w2)))))),
           Done ())) /\
    (forall r w2,
        caught r = None -> usable r = None ->
        exec (k r) w2 = (after (setIsGenerating false) w2, Done ())) /\
    (forall r e w2,
        caught r = Some e -> nullish e = false ->
        exec (k r) w2
        = (after (setIsGenerating false)
             (after (toast (generation_failed (message e)))
                (after (console_error "Error generating image:" e) w2)),
           Done ())) /\
    (forall r e w2,
        caught r = Some e -> nullish e = true ->
        exec (k r) w2
        = (after (setIsGenerating false)
             (after (console_error "Error generating image:" e) w2),
           Threw TypeError)).
Proof.
  intros Hb. unfold generateImage. rewrite Hb.
  eexists. split; [reflexivity |].
  repeat split.
  - intros [[s |] error | reason] payload w2 Hu; simpl in Hu; try discriminate.
    destruct error; simpl in Hu; try discriminate;
      destruct s; simpl in Hu; try discriminate;
      injection Hu as <-; reflexivity.
  - intros [data error | reason] w2 Hc Hu; simpl in Hc, Hu; [| discriminate].
    destruct error; simpl in Hc, Hu; try discriminate;
      destruct data as [[| c s] |]; simpl in Hu; try discriminate; reflexivity.
  - intros [data error | reason] e w2 Hc Hn; simpl in Hc.
    + destruct error; simpl in Hc; try discriminate.
      injection Hc as <-. reflexivity.
    + injection Hc as <-. destruct reason; try discriminate; reflexivity.
  - intros [data error | reason] e w2 Hc Hn; simpl in Hc.
    + destruct error; simpl in Hc; try discriminate.
      injection Hc as <-. discriminate.
    + injection Hc as <-. destruct reason; try discriminate; reflexivity.
Qed.

End ImageFacts.

(** ** The claims of the specification *)

Module T := TextGenerator.
Module I := ImageGenerator.

(** Every settled call is of exactly one of four kinds. *)
Lemma result_cases r :
  (exists payload, usable r = Some payload /\ caught r = None) \/
  (caught r = None /\ usable r = None) \/
  (exists e, caught r = Some e /\ nullish e = false /\ usable r = None) \/
  (exists e, caught r = Some e /\ nullish e = true /\ usable r = None).
Proof.
  destruct r as [[s |] error | reason]; simpl.
  - destruct error; simpl; eauto 8.
    destruct (truthy_string s); eauto 8.
    destruct (truthy_string s); eauto 8.
  - destruct error; simpl; eauto 8.
  - destruct reason; simpl; eauto 8.
Qed.

Lemma usable_truthy r payload : usable r = Some payload -> truthy_string payload = true.
Proof.
  destruct r as [[s |] error | reason]; simpl; try discriminate.
  destruct (truthy error); [discriminate |].
  destruct (truthy_string s) eqn:E; [| discriminate]. congruence.
Qed.

(** C1.  A generate call on a non-blank prompt suspends at the gateway
    call; when the call settles with a usable payload, in whatever state
    the collection then is, a new artifact carrying the submitted prompt
    and the payload is put at index 0, the length grows by exactly one,
    every older artifact keeps its content and moves one place down, the
    prompt input is cleared, and the next render persists the new
    collection. *)
Theorem generate_success_prepends :
  (forall (snap : T.State) (w : T.World) r payload,
      blank (T.prompt_state snap) = false ->
      usable r = Some payload ->
      exists k w1,
        T.exec (T.generateText snap) w = (w1, Awaiting k) /\
        forall w2, exists w3 newText,
          T.exec (k r) w2 = (w3, Done ()) /\
          T.prompt newText = T.prompt_state snap /\
          T.content newText = payload /\
          T.type newText = T.type_state snap /\
          T.texts (T.state w3) = newText :: T.texts (T.state w2) /\
          length (T.texts (T.state w3)) = S (length (T.texts (T.state w2))) /\
          (forall i : nat, T.texts (T.state w3) !! S i = T.texts (T.state w2) !! i) /\
          T.prompt_state (T.state w3) = [] /\
          T.localStorage (T.commit w3) !! T.storage_key
          = Some (T.Stringified (T.texts (T.state w3)))) /\
  (forall (snap : I.State) (w : I.World) r payload,
      blank (I.prompt_state snap) = false ->
      usable r = Some payload ->
      exists k w1,
        I.exec (I.generateImage snap) w = (w1, Awaiting k) /\
        forall w2, exists w3 newImage,
          I.exec (k r) w2 = (w3, Done ()) /\
          I.prompt newImage = I.prompt_state snap /\
          I.url newImage = payload /\
          I.images (I.state w3) = newImage :: I.images (I.state w2) /\
          length (I.images (I.state w3)) = S (length (I.images (I.state w2))) /\
          (forall i : nat, I.images (I.state w3) !! S i = I.images (I.state w2) !! i) /\
          I.prompt_state (I.state w3) = [] /\
          I.localStorage (I.commit w3) !! I.storage_key
          = Some (I.Stringified (I.images (I.state w3)))).
Proof.
  split.
  - intros snap w r payload Hb Hu.
    destruct (TextFacts.generateText_steps snap w Hb) as (k & Hexec & Hok & _).
    exists k. eexists. split; [exact Hexec |].
    intros w2. eexists. exists (T.newText_of snap payload w2).
    rewrite (Hok r payload w2 Hu).
    split; [reflexivity |].
    repeat split.
    rewrite TextFacts.commit_storage. simpl. apply lookup_insert_eq.
  - intros snap w r payload Hb Hu.
    destruct (ImageFacts.generateImage_steps snap w Hb) as (k & Hexec & Hok & _).
    exists k. eexists. split; [exact Hexec |].
    intros w2. eexists. exists (I.newImage_of snap payload w2).
    rewrite (Hok r payload w2 Hu).
    split; [reflexivity |].
    repeat split.
    rewrite ImageFacts.commit_storage_image. simpl. apply lookup_insert_eq.
Qed.

(** The two scenarios of the specification: a story, and a cityscape whose
    picture is at "https://x/1.png". *)
Lemma generate_success_prepends_witness :
  (blank Samples.story = false /\
   usable (Samples.answer Samples.once) = Some Samples.once /\
   exists k w1,
     T.exec (T.generateText Samples.story_render) (T.world Samples.text_session)
     = (w1, Awaiting k) /\
     forall w2, exists w3 newText,
       T.exec (k (Samples.answer Samples.once)) w2 = (w3, Done ()) /\
       T.prompt newText = Samples.story /\
       T.texts (T.state w3) = newText :: T.texts (T.state w2)) /\
  (blank Samples.cityscape = false /\
   usable (Samples.answer Samples.picture) = Some Samples.picture /\
   exists k w1,
     I.exec (I.generateImage Samples.cityscape_render) (I.world Samples.image_session)
     = (w1, Awaiting k) /\
     forall w2, exists w3 newImage,
       I.exec (k (Samples.answer Samples.picture)) w2 = (w3, Done ()) /\
       I.prompt newImage = Samples.cityscape /\
       I.url newImage = Samples.picture /\
       I.images (I.state w3) = newImage :: I.images (I.state w2)).
Proof.
  destruct generate_success_prepends as [Ht Hi].
  split; (split; [reflexivity | split; [reflexivity |]]).
  - destruct (Ht Samples.story_render (T.world Samples.text_session)
                (Samples.answer Samples.once) Samples.once)
      as (k & w1 & Hexec & Hk); [reflexivity | reflexivity |].
    exists k, w1. split; [exact Hexec |].
    intros w2. destruct (Hk w2) as (w3 & newText & H1 & H2 & _ & _ & H3 & _).
    exists w3, newText. auto.
  - destruct (Hi Samples.cityscape_render (I.world Samples.image_session)
                (Samples.answer Samples.picture) Samples.picture)
      as (k & w1 & Hexec & Hk); [reflexivity | reflexivity |].
    exists k, w1. split; [exact Hexec |].
    intros w2. destruct (Hk w2) as (w3 & newImage & H1 & H2 & H3 & H4 & _).
    exists w3, newImage. auto.
Defined.

(** C2.  A prompt is blank, that is empty after trimming, exactly when it
    is empty or made of white space only.  On a blank prompt generate only
    shows the "Prompt required" toast: no gateway call is made and the
    state, the collection and the store are left as they were.  On any
    other prompt it makes one gateway call, carrying the prompt, before it
    suspends, and none after the call has settled, whatever the answer:
    exactly one. *)
Theorem generate_validates_prompt :
  (forall prompt : jsstring,
      blank prompt = true <-> forallb is_white_space prompt = true) /\
  (forall (snap : T.State) (w : T.World),
      (blank (T.prompt_state snap) = true ->
       exists w1,
         T.exec (T.generateText snap) w = (w1, Done ()) /\
         T.calls w1 = T.calls w /\
         T.toasts w1 = T.prompt_required :: T.toasts w /\
         T.state w1 = T.state w /\
         T.localStorage (T.commit w1) = T.localStorage (T.commit w)) /\
      (blank (T.prompt_state snap) = false ->
       exists k w1,
         T.exec (T.generateText snap) w = (w1, Awaiting k) /\
         T.calls w1 = T.request_of snap :: T.calls w /\
         forall r w2,
           T.calls (fst (T.exec (k r) w2)) = T.calls w2 /\
           forall k', snd (T.exec (k r) w2) <> Awaiting k')) /\
  (forall (snap : I.State) (w : I.World),
      (blank (I.prompt_state snap) = true ->
       exists w1,
         I.exec (I.generateImage snap) w = (w1, Done ()) /\
         I.calls w1 = I.calls w /\
         I.toasts w1 = I.prompt_required :: I.toasts w /\
         I.state w1 = I.state w /\
         I.localStorage (I.commit w1) = I.localStorage (I.commit w)) /\
      (blank (I.prompt_state snap) = false ->
       exists k w1,
         I.exec (I.generateImage snap) w = (w1, Awaiting k) /\
         I.calls w1 = I.request_of snap :: I.calls w /\
         forall r w2,
           I.calls (fst (I.exec (k r) w2)) = I.calls w2 /\
           forall k', snd (I.exec (k r) w2) <> Awaiting k')).
Proof.
  split; [exact blank_iff |].
  split; intros snap w; split; intros Hb.
  - rewrite (TextFacts.generateText_blank snap w Hb).
    eexists. split; [reflexivity |]. repeat split.
    rewrite !TextFacts.commit_storage. reflexivity.
  - destruct (TextFacts.generateText_steps snap w Hb) as (k & Hexec & H1 & H2 & H3 & H4).
    exists k. eexists. split; [exact Hexec |]. split; [reflexivity |].
    intros r w2.
    destruct (result_cases r) as [(p & Hu & _) | [[Hc Hu] | [(e & Hc & Hn & _) | (e & Hc & Hn & _)]]].
    + rewrite (H1 r p w2 Hu). split; [reflexivity | discriminate].
    + rewrite (H2 r w2 Hc Hu). split; [reflexivity | discriminate].
    + rewrite (H3 r e w2 Hc Hn). split; [reflexivity | discriminate].
    + rewrite (H4 r e w2 Hc Hn). split; [reflexivity | discriminate].
  - rewrite (ImageFacts.generateImage_blank snap w Hb).
    eexists. split; [reflexivity |]. repeat split.
    rewrite !ImageFacts.commit_storage_image. reflexivity.
  - destruct (ImageFacts.generateImage_steps snap w Hb) as (k & Hexec & H1 & H2 & H3 & H4).
    exists k. eexists. split; [exact Hexec |]. split; [reflexivity |].
    intros r w2.
    destruct (result_cases r) as [(p & Hu & _) | [[Hc Hu] | [(e & Hc & Hn & _) | (e & Hc & Hn & _)]]].
    + rewrite (H1 r p w2 Hu). split; [reflexivity | discriminate].
    + rewrite (H2 r w2 Hc Hu). split; [reflexivity | discriminate].
    + rewrite (H3 r e w2 Hc Hn). split; [reflexivity | discriminate].
    + rewrite (H4 r e w2 Hc Hn). split; [reflexivity | discriminate].
Qed.

(** A prompt of white space only, and the two prompts of the scenarios. *)
Lemma generate_validates_prompt_witness :
  (blank Samples.spaces = true /\
   exists w1,
     T.exec (T.generateText Samples.spaces_render) (T.world Samples.text_session)
     = (w1, Done ()) /\
     T.calls w1 = [] /\ T.toasts w1 = [T.prompt_required]) /\
  (blank Samples.story = false /\
   exists k w1,
     T.exec (T.generateText Samples.story_render) (T.world Samples.text_session)
     = (w1, Awaiting k) /\
     T.calls w1 = [T.request_of Samples.story_render]) /\
  (blank Samples.spaces = true /\
   exists w1,
     I.exec (I.generateImage Samples.spaces_render_image) (I.world Samples.image_session)
     = (w1, Done ()) /\
     I.calls w1 = [] /\ I.toasts w1 = [I.prompt_required]) /\
  (blank Samples.cityscape = false /\
   exists k w1,
     I.exec (I.generateImage Samples.cityscape_render) (I.world Samples.image_session)
     = (w1, Awaiting k) /\
     I.calls w1 = [I.request_of Samples.cityscape_render]).
Proof.
  destruct generate_validates_prompt as (_ & Ht & Hi).
  repeat split.
  - destruct (proj1 (Ht Samples.spaces_render (T.world Samples.text_session)))
      as (w1 & H1 & H2 & H3 & _); [reflexivity |].
    exists w1. auto.
  - destruct (proj2 (Ht Samples.story_render (T.world Samples.text_session)))
      as (k & w1 & H1 & H2 & _); [reflexivity |].
    exists k, w1. auto.
  - destruct (proj1 (Hi Samples.spaces_render_image (I.world Samples.image_session)))
      as (w1 & H1 & H2 & H3 & _); [reflexivity |].
    exists w1. auto.
  - destruct (proj2 (Hi Samples.cityscape_render (I.world Samples.image_session)))
      as (k & w1 & H1 & H2 & _); [reflexivity |].
    exists k, w1. auto.
Defined.

(** The buttons respect the flag: while it is set a click on "Generate" or
    on a "Regenerate" button does nothing. *)
Lemma buttons_respect_flag :
  (forall s : T.Session,
      T.isGenerating (T.state (T.world s)) = true ->
      T.dispatch T.Click_generate s = s /\
      forall card, T.dispatch (T.Click_regenerate card) s = s) /\
  (forall s : I.Session,
      I.isGenerating (I.state (I.world s)) = true ->
      I.dispatch I.Click_generate s = s /\
      I.dispatch I.Click_regenerate_selected s = s /\
      forall card, I.dispatch (I.Click_regenerate card) s = s).
Proof.
  split; intros s Hg; unfold T.dispatch, I.dispatch; rewrite Hg; simpl.
  - split; [reflexivity |]. intros card.
    destruct (T.texts (T.state (T.world s)) !! card); reflexivity.
  - split; [reflexivity |]. split.
    + destruct (I.selectedImage (I.state (I.world s))); reflexivity.
    + intros card. destruct (I.images (I.state (I.world s)) !! card); reflexivity.
Qed.

(** The keyboard shortcut does not: Ctrl+Enter on a prompt that is not
    blank issues a gateway call whether the flag is set or not. *)
Lemma Ctrl_Enter_ignores_flag :
  (forall s : T.Session,
      blank (T.prompt_state (T.state (T.world s))) = false ->
      T.calls (T.world (T.dispatch T.Ctrl_Enter s))
      = T.request_of (T.state (T.world s)) :: T.calls (T.world s) /\
      length (T.pending (T.dispatch T.Ctrl_Enter s)) = S (length (T.pending s))) /\
  (forall s : I.Session,
      blank (I.prompt_state (I.state (I.world s))) = false ->
      I.calls (I.world (I.dispatch I.Ctrl_Enter s))
      = I.request_of (I.state (I.world s)) :: I.calls (I.world s) /\
      length (I.pending (I.dispatch I.Ctrl_Enter s)) = S (length (I.pending s))).
Proof.
  split; intros s Hb.
  - destruct (TextFacts.generateText_steps _ (T.world s) Hb) as (k & Hexec & _).
    unfold T.dispatch, T.handle. rewrite Hexec. simpl.
    unfold T.calls. rewrite TextFacts.commit_trace. simpl.
    split; [reflexivity |]. rewrite length_app. simpl. lia.
  - destruct (ImageFacts.generateImage_steps _ (I.world s) Hb) as (k & Hexec & _).
    unfold I.dispatch, I.handle. rewrite Hexec. simpl.
    unfold I.calls. rewrite ImageFacts.commit_trace_image. simpl.
    split; [reflexivity |]. rewrite length_app. simpl. lia.
Qed.

(** C3 (the code departs from the claim).  The user types a prompt and
    clicks "Generate": the flag is set and one call is outstanding.
    Ctrl+Enter in the prompt field before the gateway answers issues a
    second call, and two calls are then outstanding, in the text generator
    and in the image generator alike. *)
Theorem second_call_while_generating :
  (let s1 := T.play [T.Change_prompt Samples.story; T.Click_generate] Samples.text_session in
   let s2 := T.dispatch T.Ctrl_Enter s1 in
   T.isGenerating (T.state (T.world s1)) = true /\
   T.calls (T.world s1) = [T.request_of Samples.story_render] /\
   length (T.pending s1) = 1%nat /\
   T.calls (T.world s2)
   = [T.request_of Samples.story_render; T.request_of Samples.story_render] /\
   length (T.pending s2) = 2%nat) /\
  (let s1 := I.play [I.Change_prompt Samples.cityscape; I.Click_generate] Samples.image_session in
   let s2 := I.dispatch I.Ctrl_Enter s1 in
   I.isGenerating (I.state (I.world s1)) = true /\
   I.calls (I.world s1) = [I.request_of Samples.cityscape_render] /\
   length (I.pending s1) = 1%nat /\
   I.calls (I.world s2)
   = [I.request_of Samples.cityscape_render; I.request_of Samples.cityscape_render] /\
   length (I.pending s2) = 2%nat).
Proof. split; vm_compute; repeat split. Qed.

(** C4.  On a prompt that is not blank, generate issues its gateway call
    from a world in which the flag is already set, and however the call
    settles (a payload, no payload, an error, a rejection, a rejection
    whose reason cannot even be read) the rest of the function ends with
    the flag cleared, in whatever world it is resumed; the render that
    follows keeps it cleared. *)
Theorem generate_clears_flag :
  (forall (snap : T.State) (w : T.World),
      blank (T.prompt_state snap) = false ->
      exists k w0,
        T.exec (T.generateText snap) w = (T.issue (T.request_of snap) w0, Awaiting k) /\
        T.isGenerating (T.state w0) = true /\
        forall r w2,
          T.isGenerating (T.state (fst (T.exec (k r) w2))) = false /\
          T.isGenerating (T.state (T.commit (fst (T.exec (k r) w2)))) = false /\
          forall k', snd (T.exec (k r) w2) <> Awaiting k') /\
  (forall (snap : I.State) (w : I.World),
      blank (I.prompt_state snap) = false ->
      exists k w0,
        I.exec (I.generateImage snap) w = (I.issue (I.request_of snap) w0, Awaiting k) /\
        I.isGenerating (I.state w0) = true /\
        forall r w2,
          I.isGenerating (I.state (fst (I.exec (k r) w2))) = false /\
          I.isGenerating (I.state (I.commit (fst (I.exec (k r) w2)))) = false /\
          forall k', snd (I.exec (k r) w2) <> Awaiting k').
Proof.
  split; intros snap w Hb.
  - destruct (TextFacts.generateText_steps snap w Hb) as (k & Hexec & H1 & H2 & H3 & H4).
    exists k. eexists. split; [exact Hexec |]. split; [reflexivity |].
    intros r w2. rewrite TextFacts.commit_state.
    destruct (result_cases r) as [(p & Hu & _) | [[Hc Hu] | [(e & Hc & Hn & _) | (e & Hc & Hn & _)]]].
    + rewrite (H1 r p w2 Hu). repeat split; discriminate.
    + rewrite (H2 r w2 Hc Hu). repeat split; discriminate.
    + rewrite (H3 r e w2 Hc Hn). repeat split; discriminate.
    + rewrite (H4 r e w2 Hc Hn). repeat split; discriminate.
  - destruct (ImageFacts.generateImage_steps snap w Hb) as (k & Hexec & H1 & H2 & H3 & H4).
    exists k. eexists. split; [exact Hexec |]. split; [reflexivity |].
    intros r w2. rewrite ImageFacts.commit_state_image.
    destruct (result_cases r) as [(p & Hu & _) | [[Hc Hu] | [(e & Hc & Hn & _) | (e & Hc & Hn & _)]]].
    + rewrite (H1 r p w2 Hu). repeat split; discriminate.
    + rewrite (H2 r w2 Hc Hu). repeat split; discriminate.
    + rewrite (H3 r e w2 Hc Hn). repeat split; discriminate.
    + rewrite (H4 r e w2 Hc Hn). repeat split; discriminate.
Qed.

(** The flag around the calls of the two scenarios. *)
Lemma generate_clears_flag_witness :
  (blank Samples.story = false /\
   exists k w0,
     T.exec (T.generateText Samples.story_render) (T.world Samples.text_session)
     = (T.issue (T.request_of Samples.story_render) w0, Awaiting k) /\
     T.isGenerating (T.state w0) = true /\
     forall r w2, T.isGenerating (T.state (fst (T.exec (k r) w2))) = false) /\
  (blank Samples.cityscape = false /\
   exists k w0,
     I.exec (I.generateImage Samples.cityscape_render) (I.world Samples.image_session)
     = (I.issue (I.request_of Samples.cityscape_render) w0, Awaiting k) /\
     I.isGenerating (I.state w0) = true /\
     forall r w2, I.isGenerating (I.state (fst (I.exec (k r) w2))) = false).
Proof.
  destruct generate_clears_flag as [Ht Hi].
  split; (split; [reflexivity |]).
  - destruct (Ht Samples.story_render (T.world Samples.text_session))
      as (k & w0 & H1 & H2 & H3); [reflexivity |].
    exists k, w0. repeat split; [exact H1 | exact H2 |].
    intros r w2. apply H3.
  - destruct (Hi Samples.cityscape_render (I.world Samples.image_session))
      as (k & w0 & H1 & H2 & H3); [reflexivity |].
    exists k, w0. repeat split; [exact H1 | exact H2 |].
    intros r w2. apply H3.
Defined.





(** [regenerateText] and [regenerateImage] queue their updates of the
    inputs and then run the generate handler of the same render, which
    still reads the prompt (and type) that render was made with. *)
Lemma regenerate_reads_render :
  (forall (snap : T.State) (text : T.GeneratedText) (w : T.World),
      T.exec (T.regenerateText snap text) w
      = T.exec (T.generateText snap)
          (T.after (T.setType (T.type text)) (T.after (T.setPrompt (T.prompt text)) w))) /\
  (forall (snap : I.State) (image : I.GeneratedImage) (w : I.World),
      I.exec (I.regenerateImage snap image) w
      = I.exec (I.generateImage snap) (I.after (I.setPrompt (I.prompt image)) w)).
Proof. split; reflexivity. Qed.

(** C6 (the code departs from the claim).  After a successful generation
    the prompt input is empty.  A click on "Regenerate" for the stored
    artifact then makes no gateway call at all: it shows "Prompt required"
    and only copies the artifact's prompt into the input.  With other
    words typed into the input (and, for text, another style selected)
    the call that "Regenerate" makes carries those, not the prompt and
    kind stored in the artifact.  The collection keeps the original
    artifact in both runs. *)
Theorem regenerate_sends_stale_input :
  (let s := T.play [T.Change_prompt Samples.story; T.Click_generate;
                    T.Settle 0 (Samples.answer Samples.once)] Samples.text_session in
   let s1 := T.dispatch (T.Click_regenerate 0) s in
   let s2 := T.play [T.Change_prompt Samples.hello; T.Change_type Samples.casual;
                     T.Click_regenerate 0] s in
   T.texts (T.state (T.world s)) = [Samples.story_text] /\
   T.prompt_state (T.state (T.world s)) = [] /\
   T.calls (T.world s1) = T.calls (T.world s) /\
   T.toasts (T.world s1) = T.prompt_required :: T.toasts (T.world s) /\
   T.pending s1 = [] /\
   T.prompt_state (T.state (T.world s1)) = Samples.story /\
   T.texts (T.state (T.world s1)) = [Samples.story_text] /\
   T.calls (T.world s2)
   = {| T.function_name := "generate-text"; T.body_prompt := Samples.hello;
        T.body_type := Samples.casual |} :: T.calls (T.world s) /\
   T.texts (T.state (T.world s2)) = [Samples.story_text]) /\
  (let s := I.play [I.Change_prompt Samples.cityscape; I.Click_generate;
                    I.Settle 0 (Samples.answer Samples.picture)] Samples.image_session in
   let s1 := I.dispatch (I.Click_regenerate 0) s in
   let s2 := I.play [I.Change_prompt Samples.hello; I.Click_regenerate 0] s in
   I.images (I.state (I.world s)) = [Samples.cityscape_image] /\
   I.prompt_state (I.state (I.world s)) = [] /\
   I.calls (I.world s1) = I.calls (I.world s) /\
   I.toasts (I.world s1) = I.prompt_required :: I.toasts (I.world s) /\
   I.pending s1 = [] /\
   I.prompt_state (I.state (I.world s1)) = Samples.cityscape /\
   I.images (I.state (I.world s1)) = [Samples.cityscape_image] /\
   I.calls (I.world s2)
   = {| I.function_name := "generate-image"; I.body_prompt := Samples.hello |}
     :: I.calls (I.world s) /\
   I.images (I.state (I.world s2)) = [Samples.cityscape_image]).
Proof. split; vm_compute; repeat split. Qed.

(** ** The export file name *)

Lemma lookup_map {A B} (f : A -> B) (l : list A) (i : nat) :
  map f l !! i = f <$> (l !! i).
Proof.
  revert i. induction l as [| x l IH]; intros [| i]; simpl; auto.
Qed.

Lemma is_alnum_spec c :
  is_alnum c = true <-> 48 <= c <= 57 \/ 65 <= c <= 90 \/ 97 <= c <= 122.
Proof.
  unfold is_alnum. rewrite !orb_true_iff, !andb_true_iff, !N.leb_le. tauto.
Qed.

Lemma is_segment_unit_spec c :
  is_segment_unit c = true <-> 48 <= c <= 57 \/ 97 <= c <= 122 \/ c = dash.
Proof.
  unfold is_segment_unit.
  rewrite !orb_true_iff, !andb_true_iff, !N.leb_le, N.eqb_eq. tauto.
Qed.

(** The replacement leaves ASCII only, which is what [lower_unit] is
    defined on. *)
Lemma replace_non_alnum_ascii s : Forall (fun c => c < 128) (replace_non_alnum s).
Proof.
  unfold replace_non_alnum. apply Forall_forall. intros c Hc.
  apply list_elem_of_In, in_map_iff in Hc. destruct Hc as (d & <- & _).
  destruct (is_alnum d) eqn:E; [| unfold dash; lia].
  apply is_alnum_spec in E. lia.
Qed.

Lemma segment_unit c :
  is_segment_unit (lower_unit (if is_alnum c then c else dash)) = true.
Proof.
  apply is_segment_unit_spec. unfold lower_unit.
  destruct (is_alnum c) eqn:E.
  - apply is_alnum_spec in E.
    destruct (N.leb_spec 65 c), (N.leb_spec c 90); simpl; lia.
  - right. right. reflexivity.
Qed.

(** C7, as stated, fails on its own example: every character that is not a
    letter or a digit becomes a separator of its own, runs are not merged
    and a trailing separator is kept. *)
Lemma export_segment_not_merged :
  sanitizedPrompt Samples.export_prompt = js "a--b--c-" /\
  sanitizedPrompt Samples.export_prompt <> js "a-b-c".
Proof. split; [reflexivity | discriminate]. Qed.

(** C7, amended.  The segment is computed unit by unit from the first 50
    UTF-16 code units of the prompt: an ASCII letter or digit is kept, in
    lower case, and every other code unit is replaced by one "-".  So the
    segment is as long as the truncated prompt, consists of digits,
    lower-case letters and separators only, and "A: B? C!" yields
    "a--b--c-".  Both download names embed it. *)
Theorem export_segment_per_unit :
  (forall prompt : jsstring,
      length (sanitizedPrompt prompt) = Nat.min 50 (length prompt) /\
      (forall (i : nat) (c : N),
          (i < 50)%nat -> prompt !! i = Some c ->
          sanitizedPrompt prompt !! i
          = Some (if is_alnum c then lower_unit c else dash)) /\
      (forall i : nat, (50 <= i)%nat -> sanitizedPrompt prompt !! i = None) /\
      Forall (fun c => is_segment_unit c = true) (sanitizedPrompt prompt)) /\
  sanitizedPrompt Samples.export_prompt = js "a--b--c-" /\
  (forall (text : T.GeneratedText) (url prompt : jsstring) (now : N),
      T.exportText_download text now
      = js "ai-generated-" ++ sanitizedPrompt (T.prompt text) ++ js "-"
        ++ toString now ++ js ".txt" /\
      I.downloadImage_download prompt now
      = js "ai-generated-" ++ sanitizedPrompt prompt ++ js "-"
        ++ toString now ++ js ".png").
Proof.
  split; [| split; [reflexivity | intros; split; reflexivity]].
  intros prompt. unfold sanitizedPrompt, toLowerCase, replace_non_alnum, slice0.
  repeat split.
  - rewrite !length_map, length_firstn. reflexivity.
  - intros i c Hi Hc.
    rewrite !lookup_map, lookup_take_lt by exact Hi. rewrite Hc. simpl.
    destruct (is_alnum c); [reflexivity |]. reflexivity.
  - intros i Hi. apply lookup_ge_None.
    rewrite !length_map, length_firstn. lia.
  - apply Forall_forall. intros c Hc.
    apply list_elem_of_In, in_map_iff in Hc. destruct Hc as (d & <- & Hd).
    apply in_map_iff in Hd. destruct Hd as (e & <- & _).
    apply segment_unit.
Qed.

(** The colon and the capital letter of "A: B? C!". *)
Lemma export_segment_per_unit_witness :
  (1 < 50)%nat /\ Samples.export_prompt !! 1%nat = Some 58 /\
  sanitizedPrompt Samples.export_prompt !! 1%nat = Some dash /\
  sanitizedPrompt Samples.export_prompt !! 0%nat = Some 97.
Proof.
  destruct export_segment_per_unit as (H & _).
  destruct (H Samples.export_prompt) as (_ & Hunit & _).
  split; [lia |]. split; [reflexivity |]. split.
  - apply (Hunit 1%nat 58); [lia | reflexivity].
  - apply (Hunit 0%nat 65); [lia | reflexivity].
Defined.

(** ** Loading, clearing and removing *)

(** What the first render and its effects make of each kind of stored
    value. *)
Lemma mount_cases :
  (forall store time,
      T.world (T.mount store time)
      = match store !! T.storage_key with
        | None => T.boot store time
        | Some (T.Unparsable []) => T.boot store time
        | Some (T.Unparsable (c :: raw)) =>
            T.after (T.console_error "Failed to load saved texts:" SyntaxError)
              (T.boot store time)
        | Some (T.Stringified l) =>
            T.commit (T.after (T.setTexts (fun _ => l)) (T.boot store time))
        | Some T.OtherJSON =>
            T.commit (T.after (T.setTexts_any T.Foreign) (T.boot store time))
        end) /\
  (forall store time,
      I.world (I.mount store time)
      = match store !! I.storage_key with
        | None => I.boot store time
        | Some (I.Unparsable []) => I.boot store time
        | Some (I.Unparsable (c :: raw)) =>
            I.after (I.console_error "Failed to load saved images:" SyntaxError)
              (I.boot store time)
        | Some (I.Stringified l) =>
            I.commit (I.after (I.setImages (fun _ => l)) (I.boot store time))
        | Some I.OtherJSON =>
            I.commit (I.after (I.setImages_any I.Foreign) (I.boot store time))
        end).
Proof.
  split; intros store time.
  - unfold T.mount, T.loadEffect. cbn.
    destruct (store !! T.storage_key) as [[[| c raw] | l |] |]; reflexivity.
  - unfold I.mount, I.loadEffect. cbn.
    destruct (store !! I.storage_key) as [[[| c raw] | l |] |]; reflexivity.
Qed.

(** A saved collection comes back as it was written. *)
Lemma mount_restores :
  (forall store time l,
      store !! T.storage_key = Some (T.Stringified l) ->
      T.texts (T.state (T.world (T.mount store time))) = l) /\
  (forall store time l,
      store !! I.storage_key = Some (I.Stringified l) ->
      I.images (I.state (I.world (I.mount store time))) = l).
Proof.
  destruct mount_cases as [Ht Hi].
  split; intros store time l H.
  - rewrite Ht, H, TextFacts.commit_state. reflexivity.
  - rewrite Hi, H, ImageFacts.commit_state_image. reflexivity.
Qed.



(** C9.  Once confirmed, "Clear All" leaves the collection empty and the
    key absent from the store, whatever the collection and the store held:
    the entry is deleted, and the render that follows writes nothing
    because the collection is empty. *)
Theorem clear_removes_entry :
  (forall s : T.Session,
      let s' := T.handle (T.clearAll true) s in
      T.texts (T.state (T.world s')) = [] /\
      T.localStorage (T.world s') !! T.storage_key = None /\
      T.localStorage (T.world s') = delete T.storage_key (T.localStorage (T.world s)) /\
      T.pending s' = T.pending s) /\
  (forall s : I.Session,
      let s' := I.handle (I.clearAll true) s in
      I.images (I.state (I.world s')) = [] /\
      I.localStorage (I.world s') !! I.storage_key = None /\
      I.localStorage (I.world s') = delete I.storage_key (I.localStorage (I.world s)) /\
      I.pending s' = I.pending s).
Proof.
  split; intros s; cbv zeta.
  - unfold T.handle.
    destruct (T.exec (T.clearAll true) (T.world s)) as [w o] eqn:E.
    cbn in E. injection E as <- <-. simpl.
    repeat split. apply lookup_delete_eq.
  - unfold I.handle.
    destruct (I.exec (I.clearAll true) (I.world s)) as [w o] eqn:E.
    cbn in E. injection E as <- <-. simpl.
    repeat split. apply lookup_delete_eq.
Qed.

(** The button behind C9 exists only while the collection is not empty,
    and a declined confirmation changes nothing. *)
Lemma clear_button :
  (forall s : T.Session,
      (T.texts (T.state (T.world s)) = [] -> T.dispatch (T.Click_clear true) s = s) /\
      (T.texts (T.state (T.world s)) <> [] ->
       T.dispatch (T.Click_clear true) s = T.handle (T.clearAll true) s) /\
      T.world (T.handle (T.clearAll false) s) = T.commit (T.world s)) /\
  (forall s : I.Session,
      (I.images (I.state (I.world s)) = [] -> I.dispatch (I.Click_clear true) s = s) /\
      (I.images (I.state (I.world s)) <> [] ->
       I.dispatch (I.Click_clear true) s = I.handle (I.clearAll true) s) /\
      I.world (I.handle (I.clearAll false) s) = I.commit (I.world s)).
Proof.
  split; intros s; repeat split.
  - intros H. unfold T.dispatch. rewrite H. reflexivity.
  - intros H. unfold T.dispatch.
    destruct (T.texts (T.state (T.world s))); [congruence | reflexivity].
  - intros H. unfold I.dispatch. rewrite H. reflexivity.
  - intros H. unfold I.dispatch.
    destruct (I.images (I.state (I.world s))); [congruence | reflexivity].
Qed.

(** C10.  [deleteText] keeps the artifacts whose id differs.  When none is
    left, the render that follows writes nothing and nothing was removed:
    the store is exactly what it was, so if it held the collection as it
    stood before the removal, the next session starts with that collection,
    removed artifact included.  When some artifact is left, the render
    overwrites the entry with what is left.  The guard is that of the saving
    effect, which the image generator shares. *)
Theorem remove_last_keeps_entry :
  (forall (s : T.Session) (i : jsstring),
      let s' := T.handle (T.deleteText i) s in
      let rest := List.filter (T.id_differs i) (T.texts (T.state (T.world s))) in
      T.texts (T.state (T.world s')) = rest /\
      (rest = [] -> T.localStorage (T.world s') = T.localStorage (T.world s)) /\
      (rest <> [] ->
       T.localStorage (T.world s')
       = <[T.storage_key := T.Stringified rest]> (T.localStorage (T.world s))) /\
      (rest = [] ->
       T.localStorage (T.world s) !! T.storage_key
       = Some (T.Stringified (T.texts (T.state (T.world s)))) ->
       forall time,
         T.texts (T.state (T.world (T.mount (T.localStorage (T.world s')) time)))
         = T.texts (T.state (T.world s)))) /\
  (forall w : T.World,
      T.texts (T.state w) = [] -> T.localStorage (T.commit w) = T.localStorage w) /\
  (forall w : I.World,
      I.images (I.state w) = [] -> I.localStorage (I.commit w) = I.localStorage w).
Proof.
  assert (Hsave : forall w : T.World,
             T.texts (T.state w) = [] -> T.localStorage (T.commit w) = T.localStorage w).
  { intros w H. rewrite TextFacts.commit_storage, H.
    destruct (T.texts_changed w); reflexivity. }
  split; [| split; [exact Hsave |]].
  - intros s i. cbv zeta. unfold T.handle.
    destruct (T.exec (T.deleteText i) (T.world s)) as [w o] eqn:E.
    cbn in E. injection E as <- <-. simpl.
    rewrite TextFacts.commit_state, TextFacts.commit_storage. simpl.
    set (rest := List.filter (T.id_differs i) (T.texts (T.state (T.world s)))).
    assert (Hkeep : rest = [] ->
                    (if (0 <? length rest)%nat
                     then <[T.storage_key := T.Stringified rest]> (T.localStorage (T.world s))
                     else T.localStorage (T.world s)) = T.localStorage (T.world s)).
    { intros ->. reflexivity. }
    repeat split.
    + exact Hkeep.
    + intros Hne. destruct rest; [congruence | reflexivity].
    + intros Hnil Hheld time. rewrite (Hkeep Hnil).
      apply (proj1 mount_restores). exact Hheld.
  - intros w H. rewrite ImageFacts.commit_storage_image, H.
    destruct (I.images_changed w); reflexivity.
Qed.

(** The only artifact of a session is removed; the next session shows it
    again. *)
Lemma remove_last_keeps_entry_witness :
  let s := T.play [T.Change_prompt Samples.story; T.Click_generate;
                   T.Settle 0 (Samples.answer Samples.once)] Samples.text_session in
  let s' := T.handle (T.deleteText (T.id Samples.story_text)) s in
  List.filter (T.id_differs (T.id Samples.story_text)) (T.texts (T.state (T.world s))) = [] /\
  T.localStorage (T.world s) !! T.storage_key = Some (T.Stringified [Samples.story_text]) /\
  T.texts (T.state (T.world s')) = [] /\
  T.localStorage (T.world s') = T.localStorage (T.world s) /\
  T.texts (T.state (T.world (T.mount (T.localStorage (T.world s')) Samples.time)))
  = [Samples.story_text].
Proof.
  cbv zeta.
  destruct remove_last_keeps_entry as (H & _).
  destruct (H (T.play [T.Change_prompt Samples.story; T.Click_generate;
                       T.Settle 0 (Samples.answer Samples.once)] Samples.text_session)
              (T.id Samples.story_text)) as (H1 & H2 & _ & H4).
  split; [reflexivity |]. split; [reflexivity |].
  split; [exact H1 |]. split; [apply H2; reflexivity |].
  apply (H4 eq_refl eq_refl Samples.time).
Defined.

(** ** Invariants of the sessions a user can reach *)

Module TextInvariants.
Import TextGenerator.

Lemma generateText_continuation snap w w1 k :
  exec (generateText snap) w = (w1, Awaiting k) -> settles_cleanly k.
Proof.
  intros H. destruct (blank (prompt_state snap)) eqn:Hb.
  - rewrite (TextFacts.generateText_blank snap w Hb) in H. discriminate.
  - destruct (TextFacts.generateText_steps snap w Hb) as (k0 & Hexec & H1 & H2 & H3 & H4).
    rewrite Hexec in H. injection H as _ <-.
    intros r w2.
    destruct (result_cases r)
      as [(p & Hu & Hc) | [[Hc Hu] | [(e & Hc & Hn & Hu) | (e & Hc & Hn & Hu)]]];
      [ rewrite (H1 r p w2 Hu) | rewrite (H2 r w2 Hc Hu)
      | rewrite (H3 r e w2 Hc Hn) | rewrite (H4 r e w2 Hc Hn) ];
      simpl; repeat split; try discriminate;
      first [ left; reflexivity | right; repeat split ].
Qed.

Lemma generateText_quiet snap w : quiet w (fst (exec (generateText snap) w)).
Proof.
  destruct (blank (prompt_state snap)) eqn:Hb.
  - rewrite (TextFacts.generateText_blank snap w Hb). right. repeat split.
  - destruct (TextFacts.generateText_steps snap w Hb) as (k0 & Hexec & _).
    rewrite Hexec. right. repeat split.
Qed.

(** The render after a quiet run restores [persisted]. *)
Lemma commit_persisted w w' : persisted w -> quiet w w' -> persisted (commit w').
Proof.
  intros [Hc Hs] Hq. split; [apply TextFacts.commit_changed |].
  rewrite TextFacts.commit_state, TextFacts.commit_storage. intros Hne.
  destruct Hq as [-> | (Hc' & Ht & Hl)].
  - destruct (texts (state w')) as [| t l]; [congruence |].
    simpl. apply lookup_insert_eq.
  - rewrite Hc', Hc. simpl. rewrite Hl, Ht. apply Hs. congruence.
Qed.

Lemma handle_steady p s :
  steady s ->
  quiet (world s) (fst (exec p (world s))) ->
  (forall k, snd (exec p (world s)) = Awaiting k -> settles_cleanly k) ->
  steady (handle p s).
Proof.
  intros [Hp Hk] Hq Hawait. unfold handle.
  destruct (exec p (world s)) as [w' o]. simpl in *.
  split; simpl.
  - exact (commit_persisted _ _ Hp Hq).
  - destruct o as [a | e | k]; try exact Hk.
    apply Forall_app. split; [exact Hk |].
    constructor; [apply Hawait; reflexivity | constructor].
Qed.

Lemma mount_steady store time : steady (mount store time).
Proof.
  split; [| constructor].
  rewrite (proj1 mount_cases).
  destruct (store !! storage_key) as [[[| c raw] | l |] |];
    try (split; [reflexivity | simpl; congruence]).
  apply (commit_persisted (boot store time)); [split; [reflexivity | simpl; congruence] |].
  left. reflexivity.
Qed.

Lemma dispatch_steady ev s : steady s -> steady (dispatch ev s).
Proof.
  intros Hs. destruct ev as [p | t | | | card | card | answer | n r]; simpl.
  - apply handle_steady; [exact Hs | right; repeat split | discriminate].
  - apply handle_steady; [exact Hs | right; repeat split | discriminate].
  - destruct (isGenerating (state (world s)) || blank (prompt_state (state (world s))));
      [exact Hs |].
    apply handle_steady; [exact Hs | apply generateText_quiet |].
    intros k Hk. destruct (exec _ _) as [w1 o] eqn:E. simpl in Hk. subst o.
    exact (generateText_continuation _ _ _ _ E).
  - apply handle_steady; [exact Hs | apply generateText_quiet |].
    intros k Hk. destruct (exec _ _) as [w1 o] eqn:E. simpl in Hk. subst o.
    exact (generateText_continuation _ _ _ _ E).
  - destruct (texts (state (world s)) !! card) as [text |]; [| exact Hs].
    destruct (isGenerating (state (world s))); [exact Hs |].
    apply handle_steady; [exact Hs | |].
    + rewrite (proj1 regenerate_reads_render).
      destruct (generateText_quiet (state (world s))
                  (after (setType (type text)) (after (setPrompt (prompt text)) (world s))))
        as [H | (H1 & H2 & H3)]; [left; exact H | right; auto].
    + intros k Hk. rewrite (proj1 regenerate_reads_render) in Hk.
      destruct (exec _ _) as [w1 o] eqn:E. simpl in Hk. subst o.
      exact (generateText_continuation _ _ _ _ E).
  - destruct (texts (state (world s)) !! card) as [text |]; [| exact Hs].
    apply handle_steady; [exact Hs | left; reflexivity | discriminate].
  - destruct (0 <? length (texts (state (world s))))%nat; [| exact Hs].
    apply handle_steady; [exact Hs | | destruct answer; discriminate].
    destruct answer; [left; reflexivity | right; repeat split].
  - destruct (pending s !! n) as [k |] eqn:Hn; [| exact Hs].
    destruct Hs as [Hp Hk].
    assert (Hok : settles_cleanly k).
    { rewrite Forall_forall in Hk. apply Hk. apply list_elem_of_lookup. eauto. }
    destruct (Hok r (world s)) as (Hend & _ & Hq).
    apply handle_steady.
    + split; [exact Hp |]. simpl. apply Forall_delete. exact Hk.
    + exact Hq.
    + intros k' Hk'. destruct (Hend k' Hk').
Qed.

(** Every session reached from a first render is steady: what is shown and
    not empty is what is stored. *)
Lemma reachable_steady store time evs : steady (play evs (mount store time)).
Proof.
  unfold play. generalize (mount_steady store time).
  generalize (mount store time). induction evs as [| ev evs IH]; intros s Hs; simpl.
  - exact Hs.
  - apply IH. apply dispatch_steady. exact Hs.
Qed.

Lemma handle_sync_flight (p : Handler unit) s w' o :
  exec p (world s) = (w', o) ->
  (forall k, o <> Awaiting k) ->
  isGenerating (state w') = isGenerating (state (world s)) ->
  single_flight s -> single_flight (handle p s).
Proof.
  intros E Ho Hg Hs. unfold handle, single_flight. rewrite E. simpl.
  rewrite TextFacts.commit_state, Hg.
  destruct o as [a | e | k]; [exact Hs | exact Hs | destruct (Ho k eq_refl)].
Qed.

Lemma generate_single_flight snap s :
  isGenerating (state (world s)) = false -> pending s = [] ->
  forall w, isGenerating (state w) = false ->
  single_flight {| world := commit (fst (exec (generateText snap) w));
                   pending := match snd (exec (generateText snap) w) with
                              | Awaiting k => pending s ++ [k]
                              | _ => pending s
                              end |}.
Proof.
  intros Hg Hp w Hw. unfold single_flight. simpl. rewrite TextFacts.commit_state.
  destruct (blank (prompt_state snap)) eqn:Hb.
  - rewrite (TextFacts.generateText_blank snap w Hb). simpl. left. split; assumption.
  - destruct (TextFacts.generateText_steps snap w Hb) as (k & Hexec & _).
    rewrite Hexec. simpl. right. split; [reflexivity |].
    exists k. rewrite Hp. reflexivity.
Qed.

Lemma dispatch_single_flight ev s :
  by_keyboard ev = false -> steady s -> single_flight s ->
  single_flight (dispatch ev s).
Proof.
  intros Hev Hst Hs.
  destruct ev as [p | t | | | card | card | answer | n r]; simpl; try discriminate.
  - eapply handle_sync_flight; [reflexivity | discriminate | reflexivity | exact Hs].
  - eapply handle_sync_flight; [reflexivity | discriminate | reflexivity | exact Hs].
  - destruct (isGenerating (state (world s))) eqn:Hg; simpl; [exact Hs |].
    destruct (blank (prompt_state (state (world s)))); [exact Hs |].
    destruct Hs as [[_ Hp] | [Hg' _]]; [| congruence].
    unfold handle.
    generalize (generate_single_flight (state (world s)) s Hg Hp (world s) Hg).
    destruct (exec (generateText (state (world s))) (world s)) as [w1 o]. simpl. auto.
  - destruct (texts (state (world s)) !! card) as [text |]; [| exact Hs].
    destruct (isGenerating (state (world s))) eqn:Hg; [exact Hs |].
    destruct Hs as [[_ Hp] | [Hg' _]]; [| congruence].
    unfold handle. rewrite (proj1 regenerate_reads_render).
    generalize (generate_single_flight (state (world s)) s Hg Hp
                  (after (setType (type text)) (after (setPrompt (prompt text)) (world s)))
                  Hg).
    destruct (exec (generateText (state (world s))) _) as [w1 o]. simpl. auto.
  - destruct (texts (state (world s)) !! card) as [text |]; [| exact Hs].
    eapply handle_sync_flight; [reflexivity | discriminate | reflexivity | exact Hs].
  - destruct (0 <? length (texts (state (world s))))%nat; [| exact Hs].
    destruct answer;
      (eapply handle_sync_flight; [reflexivity | discriminate | reflexivity | exact Hs]).
  - destruct (pending s !! n) as [k |] eqn:Hn; [| exact Hs].
    destruct Hs as [[_ Hp] | [Hg (k0 & Hp)]]; rewrite Hp in Hn.
    + discriminate.
    + destruct n as [| n]; [| discriminate]. simpl in Hn. injection Hn as <-.
      destruct Hst as [_ Hk]. rewrite Hp in Hk.
      apply Forall_cons in Hk. destruct Hk as [Hk _].
      destruct (Hk r (world s)) as (Hend & Hflag & _).
      unfold handle, single_flight. simpl.
      destruct (exec (k0 r) (world s)) as [w1 o]. simpl in *.
      rewrite TextFacts.commit_state, Hflag, Hp. simpl.
      destruct o as [a | e | k']; [left; auto | left; auto | destruct (Hend k' eq_refl)].
Qed.

(** As long as generation is started with the buttons only, at most one
    call is outstanding at any time and the flag tells whether one is. *)
Lemma buttons_single_flight store time evs :
  Forall (fun ev => by_keyboard ev = false) evs ->
  single_flight (play evs (mount store time)).
Proof.
  intros Hevs. unfold play.
  assert (H0 : steady (mount store time) /\ single_flight (mount store time)).
  { split; [apply mount_steady |]. left. split; [| reflexivity].
    rewrite (proj1 mount_cases).
    destruct (store !! storage_key) as [[[| c raw] | l |] |];
      try reflexivity; rewrite TextFacts.commit_state; reflexivity. }
  revert H0. generalize (mount store time).
  induction Hevs as [| ev evs Hev _ IH]; intros s [Hst Hs]; simpl.
  - exact Hs.
  - apply IH. split; [apply dispatch_steady; exact Hst |].
    apply dispatch_single_flight; assumption.
Qed.

End TextInvariants.

Module ImageInvariants.
Import ImageGenerator.

Lemma generateImage_continuation snap w w1 k :
  exec (generateImage snap) w = (w1, Awaiting k) -> settles_cleanly k.
Proof.
  intros H. destruct (blank (prompt_state snap)) eqn:Hb.
  - rewrite (ImageFacts.generateImage_blank snap w Hb) in H. discriminate.
  - destruct (ImageFacts.generateImage_steps snap w Hb) as (k0 & Hexec & H1 & H2 & H3 & H4).
    rewrite Hexec in H. injection H as _ <-.
    intros r w2.
    destruct (result_cases r)
      as [(p & Hu & Hc) | [[Hc Hu] | [(e & Hc & Hn & Hu) | (e & Hc & Hn & Hu)]]];
      [ rewrite (H1 r p w2 Hu) | rewrite (H2 r w2 Hc Hu)
      | rewrite (H3 r e w2 Hc Hn) | rewrite (H4 r e w2 Hc Hn) ];
      simpl; repeat split; try discriminate;
      first [ left; reflexivity | right; repeat split ].
Qed.

Lemma generateImage_quiet snap w : quiet w (fst (exec (generateImage snap) w)).
Proof.
  destruct (blank (prompt_state snap)) eqn:Hb.
  - rewrite (ImageFacts.generateImage_blank snap w Hb). right. repeat split.
  - destruct (ImageFacts.generateImage_steps snap w Hb) as (k0 & Hexec & _).
    rewrite Hexec. right. repeat split.
Qed.

Lemma commit_persisted_image w w' : persisted w -> quiet w w' -> persisted (commit w').
Proof.
  intros [Hc Hs] Hq. split; [apply ImageFacts.commit_changed_image |].
  rewrite ImageFacts.commit_state_image, ImageFacts.commit_storage_image. intros Hne.
  destruct Hq as [-> | (Hc' & Ht & Hl)].
  - destruct (images (state w')) as [| t l]; [congruence |].
    simpl. apply lookup_insert_eq.
  - rewrite Hc', Hc. simpl. rewrite Hl, Ht. apply Hs. congruence.
Qed.

Lemma handle_steady_image p s :
  steady s ->
  quiet (world s) (fst (exec p (world s))) ->
  (forall k, snd (exec p (world s)) = Awaiting k -> settles_cleanly k) ->
  steady (handle p s).
Proof.
  intros [Hp Hk] Hq Hawait. unfold handle.
  destruct (exec p (world s)) as [w' o]. simpl in *.
  split; simpl.
  - exact (commit_persisted_image _ _ Hp Hq).
  - destruct o as [a | e | k]; try exact Hk.
    apply Forall_app. split; [exact Hk |].
    constructor; [apply Hawait; reflexivity | constructor].
Qed.

Lemma mount_steady_image store time : steady (mount store time).
Proof.
  split; [| constructor].
  rewrite (proj2 mount_cases).
  destruct (store !! storage_key) as [[[| c raw] | l |] |];
    try (split; [reflexivity | simpl; congruence]).
  apply (commit_persisted_image (boot store time));
    [split; [reflexivity | simpl; congruence] |].
  left. reflexivity.
Qed.

(** A handler that touches neither the collection nor the store. *)
Ltac aside Hs :=
  apply handle_steady_image; [exact Hs | right; repeat split | discriminate].

Lemma regenerate_steady_image s image :
  steady s -> steady (handle (regenerateImage (state (world s)) image) s).
Proof.
  intros Hs. apply handle_steady_image; [exact Hs | |].
  - rewrite (proj2 regenerate_reads_render).
    destruct (generateImage_quiet (state (world s))
                (after (setPrompt (prompt image)) (world s)))
      as [H | (H1 & H2 & H3)]; [left; exact H | right; auto].
  - intros k Hk. rewrite (proj2 regenerate_reads_render) in Hk.
    destruct (exec _ _) as [w1 o] eqn:E. simpl in Hk. subst o.
    exact (generateImage_continuation _ _ _ _ E).
Qed.

Lemma dispatch_steady_image ev s : steady s -> steady (dispatch ev s).
Proof.
  intros Hs.
  destruct ev as [p | | | card | | card | | card | | card | card | answer | n r]; simpl.
  - aside Hs.
  - destruct (isGenerating (state (world s)) || blank (prompt_state (state (world s))));
      [exact Hs |].
    apply handle_steady_image; [exact Hs | apply generateImage_quiet |].
    intros k Hk. destruct (exec _ _) as [w1 o] eqn:E. simpl in Hk. subst o.
    exact (generateImage_continuation _ _ _ _ E).
  - apply handle_steady_image; [exact Hs | apply generateImage_quiet |].
    intros k Hk. destruct (exec _ _) as [w1 o] eqn:E. simpl in Hk. subst o.
    exact (generateImage_continuation _ _ _ _ E).
  - destruct (images (state (world s)) !! card) as [image |]; [| exact Hs].
    destruct (isGenerating (state (world s))); [exact Hs |].
    apply regenerate_steady_image. exact Hs.
  - destruct (selectedImage (state (world s))) as [image |]; [| exact Hs].
    destruct (isGenerating (state (world s))); [exact Hs |].
    apply regenerate_steady_image. exact Hs.
  - destruct (images (state (world s)) !! card) as [image |]; [| exact Hs]. aside Hs.
  - aside Hs.
  - destruct (images (state (world s)) !! card) as [image |]; [| exact Hs]. aside Hs.
  - aside Hs.
  - destruct (images (state (world s)) !! card) as [image |]; [| exact Hs]. aside Hs.
  - destruct (images (state (world s)) !! card) as [image |]; [| exact Hs]. aside Hs.
  - destruct (0 <? length (images (state (world s))))%nat; [| exact Hs].
    apply handle_steady_image; [exact Hs | | destruct answer; discriminate].
    destruct answer; [left; reflexivity | right; repeat split].
  - destruct (pending s !! n) as [k |] eqn:Hn; [| exact Hs].
    destruct Hs as [Hp Hk].
    assert (Hok : settles_cleanly k).
    { rewrite Forall_forall in Hk. apply Hk. apply list_elem_of_lookup. eauto. }
    destruct (Hok r (world s)) as (Hend & _ & Hq).
    apply handle_steady_image.
    + split; [exact Hp |]. simpl. apply Forall_delete. exact Hk.
    + exact Hq.
    + intros k' Hk'. destruct (Hend k' Hk').
Qed.

Lemma reachable_steady_image store time evs : steady (play evs (mount store time)).
Proof.
  unfold play. generalize (mount_steady_image store time).
  generalize (mount store time). induction evs as [| ev evs IH]; intros s Hs; simpl.
  - exact Hs.
  - apply IH. apply dispatch_steady_image. exact Hs.
Qed.

Lemma handle_sync_flight_image (p : Handler unit) s w' o :
  exec p (world s) = (w', o) ->
  (forall k, o <> Awaiting k) ->
  isGenerating (state w') = isGenerating (state (world s)) ->
  single_flight s -> single_flight (handle p s).
Proof.
  intros E Ho Hg Hs. unfold handle, single_flight. rewrite E. simpl.
  rewrite ImageFacts.commit_state_image, Hg.
  destruct o as [a | e | k]; [exact Hs | exact Hs | destruct (Ho k eq_refl)].
Qed.

Lemma generate_single_flight_image snap s :
  isGenerating (state (world s)) = false -> pending s = [] ->
  forall w, isGenerating (state w) = false ->
  single_flight {| world := commit (fst (exec (generateImage snap) w));
                   pending := match snd (exec (generateImage snap) w) with
                              | Awaiting k => pending s ++ [k]
                              | _ => pending s
                              end |}.
Proof.
  intros Hg Hp w Hw. unfold single_flight. simpl. rewrite ImageFacts.commit_state_image.
  destruct (blank (prompt_state snap)) eqn:Hb.
  - rewrite (ImageFacts.generateImage_blank snap w Hb). simpl. left. split; assumption.
  - destruct (ImageFacts.generateImage_steps snap w Hb) as (k & Hexec & _).
    rewrite Hexec. simpl. right. split; [reflexivity |].
    exists k. rewrite Hp. reflexivity.
Qed.

Ltac aside_flight Hs :=
  eapply handle_sync_flight_image; [reflexivity | discriminate | reflexivity | exact Hs].

Lemma regenerate_single_flight_image s image :
  isGenerating (state (world s)) = false -> single_flight s ->
  single_flight (handle (regenerateImage (state (world s)) image) s).
Proof.
  intros Hg Hs. destruct Hs as [[_ Hp] | [Hg' _]]; [| congruence].
  unfold handle. rewrite (proj2 regenerate_reads_render).
  generalize (generate_single_flight_image (state (world s)) s Hg Hp
                (after (setPrompt (prompt image)) (world s)) Hg).
  destruct (exec (generateImage (state (world s))) _) as [w1 o]. simpl. auto.
Qed.

Lemma dispatch_single_flight_image ev s :
  by_keyboard ev = false -> steady s -> single_flight s ->
  single_flight (dispatch ev s).
Proof.
  intros Hev Hst Hs.
  destruct ev as [p | | | card | | card | | card | | card | card | answer | n r];
    simpl; try discriminate.
  - aside_flight Hs.
  - destruct (isGenerating (state (world s))) eqn:Hg; simpl; [exact Hs |].
    destruct (blank (prompt_state (state (world s)))); [exact Hs |].
    destruct Hs as [[_ Hp] | [Hg' _]]; [| congruence].
    unfold handle.
    generalize (generate_single_flight_image (state (world s)) s Hg Hp (world s) Hg).
    destruct (exec (generateImage (state (world s))) (world s)) as [w1 o]. simpl. auto.
  - destruct (images (state (world s)) !! card) as [image |]; [| exact Hs].
    destruct (isGenerating (state (world s))) eqn:Hg; [exact Hs |].
    apply regenerate_single_flight_image; assumption.
  - destruct (selectedImage (state (world s))) as [image |]; [| exact Hs].
    destruct (isGenerating (state (world s))) eqn:Hg; [exact Hs |].
    apply regenerate_single_flight_image; assumption.
  - destruct (images (state (world s)) !! card) as [image |]; [| exact Hs].
    aside_flight Hs.
  - aside_flight Hs.
  - destruct (images (state (world s)) !! card) as [image |]; [| exact Hs].
    aside_flight Hs.
  - aside_flight Hs.
  - destruct (images (state (world s)) !! card) as [image |]; [| exact Hs].
    aside_flight Hs.
  - destruct (images (state (world s)) !! card) as [image |]; [| exact Hs].
    aside_flight Hs.
  - destruct (0 <? length (images (state (world s))))%nat; [| exact Hs].
    destruct answer; aside_flight Hs.
  - destruct (pending s !! n) as [k |] eqn:Hn; [| exact Hs].
    destruct Hs as [[_ Hp] | [Hg (k0 & Hp)]]; rewrite Hp in Hn.
    + discriminate.
    + destruct n as [| n]; [| discriminate]. simpl in Hn. injection Hn as <-.
      destruct Hst as [_ Hk]. rewrite Hp in Hk.
      apply Forall_cons in Hk. destruct Hk as [Hk _].
      destruct (Hk r (world s)) as (Hend & Hflag & _).
      unfold handle, single_flight. simpl.
      destruct (exec (k0 r) (world s)) as [w1 o]. simpl in *.
      rewrite ImageFacts.commit_state_image, Hflag, Hp. simpl.
      destruct o as [a | e | k']; [left; auto | left; auto | destruct (Hend k' eq_refl)].
Qed.

Lemma buttons_single_flight_image store time evs :
  Forall (fun ev => by_keyboard ev = false) evs ->
  single_flight (play evs (mount store time)).
Proof.
  intros Hevs. unfold play.
  assert (H0 : steady (mount store time) /\ single_flight (mount store time)).
  { split; [apply mount_steady_image |]. left. split; [| reflexivity].
    rewrite (proj2 mount_cases).
    destruct (store !! storage_key) as [[[| c raw] | l |] |];
      try reflexivity; rewrite ImageFacts.commit_state_image; reflexivity. }
  revert H0. generalize (mount store time).
  induction Hevs as [| ev evs Hev _ IH]; intros s [Hst Hs]; simpl.
  - exact Hs.
  - apply IH. split; [apply dispatch_steady_image; exact Hst |].
    apply dispatch_single_flight_image; assumption.
Qed.

End ImageInvariants.

(** * Further properties of the code *)

(** ** The word counter *)

Lemma word_starts_trimStart b s :
  word_starts true (trimStart s) = word_starts true s /\
  (forallb is_white_space s = true -> word_starts b s = 0%nat).
Proof.
  revert b. induction s as [| c s IH]; intros b; simpl; [auto |].
  destruct (is_white_space c) eqn:E; simpl.
  - destruct (IH true) as [H1 H2]. auto.
  - rewrite E. split; [reflexivity | discriminate].
Qed.

Lemma word_starts_app_space b s c :
  is_white_space c = true -> word_starts b (s ++ [c]) = word_starts b s.
Proof.
  intros Hc. revert b. induction s as [| d s IH]; intros b; simpl.
  - rewrite Hc. reflexivity.
  - destruct (is_white_space d); rewrite IH; reflexivity.
Qed.

Lemma trimEnd_snoc s c :
  trimEnd (s ++ [c]) = if is_white_space c then trimEnd s else s ++ [c].
Proof.
  unfold trimEnd. rewrite rev_app_distr. simpl.
  destruct (is_white_space c); [reflexivity |].
  simpl. rewrite rev_involutive. reflexivity.
Qed.

Lemma word_starts_trimEnd b s : word_starts b (trimEnd s) = word_starts b s.
Proof.
  induction s as [| c s IH] using rev_ind; [reflexivity |].
  rewrite trimEnd_snoc. destruct (is_white_space c) eqn:E; [| reflexivity].
  rewrite IH, word_starts_app_space by exact E. reflexivity.
Qed.

Lemma word_starts_trim s : word_starts true (trim s) = word_starts true s.
Proof.
  unfold trim. rewrite word_starts_trimEnd. apply word_starts_trimStart. exact true.
Qed.

Lemma split_go_words s :
  (forall c cur,
      length (List.filter (fun word : jsstring => (0 <? length word)%nat)
                (split_go false (c :: cur) s))
      = S (word_starts false s)) /\
  (forall b,
      length (List.filter (fun word : jsstring => (0 <? length word)%nat) (split_go b [] s))
      = word_starts true s).
Proof.
  assert (Hne : forall (c : N) (cur : jsstring),
             (0 <? length (rev (c :: cur)))%nat = true).
  { intros c cur. simpl. rewrite length_app. simpl.
    apply Nat.ltb_lt. lia. }
  induction s as [| d s [IH1 IH2]]; split.
  - intros c cur. cbn [split_go List.filter]. rewrite Hne. reflexivity.
  - intros b. reflexivity.
  - intros c cur. cbn [split_go word_starts].
    destruct (is_white_space d).
    + cbn [List.filter]. rewrite Hne. cbn [length]. rewrite IH2. reflexivity.
    + apply IH1.
  - intros b. cbn [split_go word_starts].
    destruct (is_white_space d).
    + destruct b; [apply IH2 |].
      cbn [List.filter rev length Nat.ltb Nat.leb]. apply IH2.
    + rewrite IH1. reflexivity.
Qed.

Lemma word_starts_zero s :
  word_starts true s = 0%nat <-> forallb is_white_space s = true.
Proof.
  induction s as [| c s IH]; simpl; [tauto |].
  destruct (is_white_space c); simpl; [exact IH |].
  split; discriminate.
Qed.

Lemma word_starts_app b s1 c s2 :
  is_white_space c = true ->
  word_starts b (s1 ++ c :: s2) = (word_starts b s1 + word_starts true s2)%nat.
Proof.
  intros Hc. revert b. induction s1 as [| d s1 IH]; intros b; simpl.
  - rewrite Hc. reflexivity.
  - destruct (is_white_space d); rewrite IH; lia.
Qed.

(** X1.  [getWordCount] counts the words of a text, a word being a maximal
    run of code units that are not white space: white space at either end
    or repeated between words adds nothing.  The count is 0 exactly for a
    blank text, and two texts joined by a white-space unit have the sum of
    their counts. *)
Theorem getWordCount_counts_words :
  (forall text : jsstring, T.getWordCount text = word_starts true text) /\
  (forall text : jsstring, T.getWordCount text = 0%nat <-> blank text = true) /\
  (forall (text1 text2 : jsstring) (c : N),
      is_white_space c = true ->
      T.getWordCount (text1 ++ c :: text2)
      = (T.getWordCount text1 + T.getWordCount text2)%nat).
Proof.
  assert (H : forall text : jsstring, T.getWordCount text = word_starts true text).
  { intros text. unfold T.getWordCount, split_white_space.
    rewrite (proj2 (split_go_words (trim text)) false). apply word_starts_trim. }
  split; [exact H | split].
  - intros text. rewrite H, blank_iff. apply word_starts_zero.
  - intros text1 text2 c Hc. rewrite !H. apply word_starts_app. exact Hc.
Qed.

(** Four words around two spaces and a line feed. *)
Lemma getWordCount_counts_words_witness :
  is_white_space 10 = true /\
  T.getWordCount (js "Once  upon" ++ 10 :: js "a time ")
  = (T.getWordCount (js "Once  upon") + T.getWordCount (js "a time "))%nat /\
  T.getWordCount (js "Once  upon" ++ 10 :: js "a time ") = 4%nat.
Proof.
  destruct getWordCount_counts_words as (_ & _ & H).
  split; [reflexivity |]. split; [| reflexivity].
  apply (H (js "Once  upon") (js "a time ") 10). reflexivity.
Defined.

(** ** Download names *)

Lemma segment_units prompt : forallb is_segment_unit (sanitizedPrompt prompt) = true.
Proof.
  unfold sanitizedPrompt, toLowerCase, replace_non_alnum.
  induction (slice0 50 prompt) as [| c s IH]; simpl; [reflexivity |].
  rewrite segment_unit. exact IH.
Qed.



Lemma segment_unit_fixed c :
  is_segment_unit c = true ->
  lower_unit (if is_alnum c then c else dash) = c.
Proof.
  intros H. apply is_segment_unit_spec in H. unfold lower_unit.
  destruct (is_alnum c) eqn:E.
  - destruct (N.leb_spec 65 c), (N.leb_spec c 90); simpl; try reflexivity.
    unfold dash in H. lia.
  - destruct H as [H | [H | ->]]; [| | reflexivity];
      (assert (is_alnum c = true) by (apply is_alnum_spec; lia); congruence).
Qed.




(** X3.  The segment depends on the first 50 code units of the prompt only,
    and sanitizing a segment again gives the same segment. *)
Theorem sanitizedPrompt_stable :
  (forall prompt : jsstring,
      sanitizedPrompt (sanitizedPrompt prompt) = sanitizedPrompt prompt) /\
  (forall prompt more : jsstring,
      (50 <= length prompt)%nat ->
      sanitizedPrompt (prompt ++ more) = sanitizedPrompt prompt).
Proof.
  split.
  - intros prompt.
    assert (Hlen : (length (sanitizedPrompt prompt) <= 50)%nat).
    { unfold sanitizedPrompt, toLowerCase, replace_non_alnum, slice0.
      rewrite !length_map, length_firstn. lia. }
    assert (Hfix : forall t : jsstring,
               (length t <= 50)%nat -> forallb is_segment_unit t = true ->
               sanitizedPrompt t = t).
    { intros t Ht. unfold sanitizedPrompt, slice0.
      rewrite firstn_all2 by exact Ht. clear Ht.
      unfold toLowerCase, replace_non_alnum.
      induction t as [| c t IH]; simpl; [reflexivity |].
      rewrite andb_true_iff. intros [Hc Hs].
      rewrite (segment_unit_fixed c Hc), (IH Hs). reflexivity. }
    apply Hfix; [exact Hlen | apply segment_units].
  - intros prompt more Hlen. unfold sanitizedPrompt, slice0.
    rewrite firstn_app.
    replace (50 - length prompt)%nat with 0%nat by lia.
    simpl. rewrite app_nil_r. reflexivity.
Qed.

(** A prompt of 52 code units, and one more word after it. *)
Lemma sanitizedPrompt_stable_witness :
  (50 <= length (js "The quick brown fox jumps over the lazy dog, twice!!"))%nat /\
  sanitizedPrompt (js "The quick brown fox jumps over the lazy dog, twice!!" ++ js " again")
  = sanitizedPrompt (js "The quick brown fox jumps over the lazy dog, twice!!").
Proof.
  split; [vm_compute; lia |].
  apply (proj2 sanitizedPrompt_stable). vm_compute. lia.
Defined.

(** ** Removing an artifact *)

Lemma filter_id_differs i (l : list T.GeneratedText) :
  (forall t, t ∈ List.filter (T.id_differs i) l <-> t ∈ l /\ T.id t <> i) /\
  sublist (List.filter (T.id_differs i) l) l /\
  (length (List.filter (T.id_differs i) l)
   + length (List.filter (fun t => bool_decide (T.id t = i)) l) = length l)%nat.
Proof.
  split; [| split].
  - intros t. rewrite !list_elem_of_In, filter_In. unfold T.id_differs.
    rewrite negb_true_iff, bool_decide_eq_false. tauto.
  - induction l as [| t l IH]; simpl; [constructor |].
    destruct (T.id_differs i t); [apply sublist_skip | apply sublist_cons]; exact IH.
  - induction l as [| t l IH]; simpl; [reflexivity |].
    unfold T.id_differs at 1. destruct (bool_decide (T.id t = i)); simpl; lia.
Qed.

Lemma filter_id_differs_absent i (l : list T.GeneratedText) :
  (forall t, t ∈ l -> T.id t <> i) -> List.filter (T.id_differs i) l = l.
Proof.
  induction l as [| t l IH]; simpl; intros Hall; [reflexivity |].
  unfold T.id_differs at 1.
  destruct (bool_decide_reflect (T.id t = i)) as [E | E]; simpl.
  - destruct (Hall t); [left | exact E].
  - f_equal. apply IH. intros u Hu. apply Hall. right. exact Hu.
Qed.

Lemma filter_id_differs_unique i (l : list T.GeneratedText) :
  NoDup (map T.id l) -> (exists t, t ∈ l /\ T.id t = i) ->
  S (length (List.filter (T.id_differs i) l)) = length l.
Proof.
  induction l as [| t l IH]; simpl; intros Hnd [u [Hu Hi]].
  - inversion Hu.
  - apply NoDup_cons in Hnd. destruct Hnd as [Hnot Hnd].
    unfold T.id_differs at 1. destruct (bool_decide_reflect (T.id t = i)) as [E | E]; simpl.
    + rewrite filter_id_differs_absent; [reflexivity |].
      intros v Hv Hvi. apply Hnot. rewrite E, <- Hvi.
      apply list_elem_of_In, in_map, list_elem_of_In. exact Hv.
    + f_equal. apply IH; [exact Hnd |].
      apply elem_of_cons in Hu. destruct Hu as [-> | Hu]; [congruence |].
      exists u. auto.
Qed.

(** X4.  [deleteText] keeps exactly the artifacts whose id differs from the
    one given, in their order, so afterwards no artifact has that id.  When
    no artifact has the id the collection is the same, and when ids are
    distinct and one artifact has it the collection is shorter by exactly
    one.  The "Deleted" toast is shown in every case; the inputs, the flag
    and the calls in flight are not touched. *)
Theorem deleteText_removes_by_id :
  forall (s : T.Session) (i : jsstring),
    let before := T.texts (T.state (T.world s)) in
    let s' := T.handle (T.deleteText i) s in
    let after := T.texts (T.state (T.world s')) in
    (forall t, t ∈ after <-> t ∈ before /\ T.id t <> i) /\
    sublist after before /\
    ((forall t, t ∈ before -> T.id t <> i) -> after = before) /\
    (NoDup (map T.id before) -> (exists t, t ∈ before /\ T.id t = i) ->
     S (length after) = length before) /\
    T.toasts (T.world s') = T.deleted :: T.toasts (T.world s) /\
    T.prompt_state (T.state (T.world s')) = T.prompt_state (T.state (T.world s)) /\
    T.type_state (T.state (T.world s')) = T.type_state (T.state (T.world s)) /\
    T.isGenerating (T.state (T.world s')) = T.isGenerating (T.state (T.world s)) /\
    T.pending s' = T.pending s.
Proof.
  intros s i. cbv zeta. unfold T.handle.
  destruct (T.exec (T.deleteText i) (T.world s)) as [w o] eqn:E.
  cbn in E. injection E as <- <-.
  unfold T.toasts. cbn [T.world T.pending].
  rewrite TextFacts.commit_state, TextFacts.commit_trace. simpl.
  destruct (filter_id_differs i (T.texts (T.state (T.world s)))) as (H1 & H2 & _).
  split; [exact H1 |]. split; [exact H2 |].
  split; [apply filter_id_differs_absent |].
  split; [apply filter_id_differs_unique |].
  repeat split.
Qed.

(** Two artifacts with distinct ids; the older one is removed, then an id
    that no artifact has. *)
Lemma deleteText_removes_by_id_witness :
  let other := {| T.id := js "7"; T.content := Samples.once; T.prompt := Samples.hello;
                  T.type := Samples.casual; T.timestamp := 7 |} in
  let s := {| T.world := T.after (T.setTexts (fun _ => [Samples.story_text; other]))
                           (T.world Samples.text_session);
              T.pending := [] |} in
  NoDup (map T.id [Samples.story_text; other]) /\
  length (T.texts (T.state (T.world (T.handle (T.deleteText (js "7")) s)))) = 1%nat /\
  T.texts (T.state (T.world (T.handle (T.deleteText (js "8")) s)))
  = [Samples.story_text; other].
Proof.
  cbv zeta.
  set (other := {| T.id := js "7"; T.content := Samples.once; T.prompt := Samples.hello;
                   T.type := Samples.casual; T.timestamp := 7 |}).
  set (s := {| T.world := T.after (T.setTexts (fun _ => [Samples.story_text; other]))
                            (T.world Samples.text_session);
               T.pending := [] |}).
  assert (Hnd : NoDup (map T.id [Samples.story_text; other])).
  { apply NoDup_cons. split; [| apply NoDup_singleton].
    intros H. apply list_elem_of_singleton in H. discriminate. }
  split; [exact Hnd |]. split.
  - destruct (deleteText_removes_by_id s (js "7")) as (_ & _ & _ & H & _).
    apply eq_add_S. apply H; [exact Hnd |].
    exists other. split; [right; left | reflexivity].
  - destruct (deleteText_removes_by_id s (js "8")) as (_ & _ & H & _).
    apply H. intros t Ht.
    apply elem_of_cons in Ht. destruct Ht as [-> | Ht]; [discriminate |].
    apply list_elem_of_singleton in Ht. subst t. discriminate.
Defined.

(** ** What every reachable session keeps *)

(** X5.  In every session reached from a first render over any store, by
    any events in any order (answers of the gateway included), a collection
    that is not empty is exactly what the store holds under the key of the
    component. *)
Theorem shown_collection_is_stored :
  (forall store time evs,
      let s := T.play evs (T.mount store time) in
      T.texts (T.state (T.world s)) <> [] ->
      T.localStorage (T.world s) !! T.storage_key
      = Some (T.Stringified (T.texts (T.state (T.world s))))) /\
  (forall store time evs,
      let s := I.play evs (I.mount store time) in
      I.images (I.state (I.world s)) <> [] ->
      I.localStorage (I.world s) !! I.storage_key
      = Some (I.Stringified (I.images (I.state (I.world s))))).
Proof.
  split; intros store time evs; cbv zeta.
  - destruct (TextInvariants.reachable_steady store time evs) as [[_ H] _]. exact H.
  - destruct (ImageInvariants.reachable_steady_image store time evs) as [[_ H] _]. exact H.
Qed.

(** A generation that succeeds, in each component. *)
Lemma shown_collection_is_stored_witness :
  (let s := T.play [T.Change_prompt Samples.story; T.Ctrl_Enter;
                    T.Settle 0 (Samples.answer Samples.once)] Samples.text_session in
   T.texts (T.state (T.world s)) <> [] /\
   T.localStorage (T.world s) !! T.storage_key
   = Some (T.Stringified (T.texts (T.state (T.world s))))) /\
  (let s := I.play [I.Change_prompt Samples.cityscape; I.Ctrl_Enter;
                    I.Settle 0 (Samples.answer Samples.picture)] Samples.image_session in
   I.images (I.state (I.world s)) <> [] /\
   I.localStorage (I.world s) !! I.storage_key
   = Some (I.Stringified (I.images (I.state (I.world s))))).
Proof.
  destruct shown_collection_is_stored as [Ht Hi].
  split; cbv zeta.
  - assert (H : T.texts (T.state (T.world
                  (T.play [T.Change_prompt Samples.story; T.Ctrl_Enter;
                           T.Settle 0 (Samples.answer Samples.once)]
                     Samples.text_session))) <> []) by discriminate.
    split; [exact H |]. exact (Ht ∅ Samples.time _ H).
  - assert (H : I.images (I.state (I.world
                  (I.play [I.Change_prompt Samples.cityscape; I.Ctrl_Enter;
                           I.Settle 0 (Samples.answer Samples.picture)]
                     Samples.image_session))) <> []) by discriminate.
    split; [exact H |]. exact (Hi ∅ Samples.time _ H).
Defined.

(** X6.  Reloading the page of a reachable session whose collection is not
    empty brings back exactly that collection and leaves the store as it
    is.  Nothing else comes back: the prompt is empty, the style is
    "creative", the flag is clear, no call is in flight, and for images no
    image is marked as loading or failed, none is hovered or selected. *)
Theorem reload_restores_collection :
  (forall store time evs time',
      let s := T.play evs (T.mount store time) in
      let s' := T.mount (T.localStorage (T.world s)) time' in
      T.texts (T.state (T.world s)) <> [] ->
      T.state (T.world s')
      = {| T.prompt_state := []; T.type_state := js "creative";
           T.isGenerating := false;
           T.texts := T.texts (T.state (T.world s)) |} /\
      T.pending s' = [] /\
      T.localStorage (T.world s') = T.localStorage (T.world s)) /\
  (forall store time evs time',
      let s := I.play evs (I.mount store time) in
      let s' := I.mount (I.localStorage (I.world s)) time' in
      I.images (I.state (I.world s)) <> [] ->
      I.state (I.world s')
      = {| I.prompt_state := []; I.isGenerating := false;
           I.images := I.images (I.state (I.world s));
           I.hoveredImage := None; I.selectedImage := None;
           I.imageLoading := ∅; I.imageErrors := ∅ |} /\
      I.pending s' = [] /\
      I.localStorage (I.world s') = I.localStorage (I.world s)).
Proof.
  split; intros store time evs time'; cbv zeta; intros Hne.
  - destruct (TextInvariants.reachable_steady store time evs) as [[_ H] _].
    specialize (H Hne). rewrite (proj1 mount_cases), H.
    rewrite TextFacts.commit_state, TextFacts.commit_storage. simpl.
    destruct (T.texts (T.state (T.world (T.play evs (T.mount store time)))))
      as [| t l] eqn:E; [congruence |].
    simpl. repeat split. apply insert_id. exact H.
  - destruct (ImageInvariants.reachable_steady_image store time evs) as [[_ H] _].
    specialize (H Hne). rewrite (proj2 mount_cases), H.
    rewrite ImageFacts.commit_state_image, ImageFacts.commit_storage_image. simpl.
    destruct (I.images (I.state (I.world (I.play evs (I.mount store time)))))
      as [| t l] eqn:E; [congruence |].
    simpl. repeat split. apply insert_id. exact H.
Qed.

(** A generation succeeds while another prompt is being typed and an image
    is still loading; then the page is reloaded. *)
Lemma reload_restores_collection_witness :
  (let s := T.play [T.Change_prompt Samples.story; T.Click_generate;
                    T.Settle 0 (Samples.answer Samples.once);
                    T.Change_prompt Samples.hello] Samples.text_session in
   T.texts (T.state (T.world s)) <> [] /\
   T.state (T.world (T.mount (T.localStorage (T.world s)) Samples.time))
   = {| T.prompt_state := []; T.type_state := js "creative";
        T.isGenerating := false; T.texts := [Samples.story_text] |}) /\
  (let s := I.play [I.Change_prompt Samples.cityscape; I.Click_generate;
                    I.Settle 0 (Samples.answer Samples.picture)] Samples.image_session in
   I.images (I.state (I.world s)) <> [] /\
   I.imageLoading (I.state (I.world s)) = {[ I.id Samples.cityscape_image ]} /\
   I.imageLoading (I.state (I.world (I.mount (I.localStorage (I.world s)) Samples.time)))
   = ∅).
Proof.
  destruct reload_restores_collection as [Ht Hi].
  split; cbv zeta.
  - assert (H : T.texts (T.state (T.world
                  (T.play [T.Change_prompt Samples.story; T.Click_generate;
                           T.Settle 0 (Samples.answer Samples.once);
                           T.Change_prompt Samples.hello] Samples.text_session))) <> [])
      by discriminate.
    split; [exact H |].
    exact (proj1 (Ht ∅ Samples.time _ Samples.time H)).
  - assert (H : I.images (I.state (I.world
                  (I.play [I.Change_prompt Samples.cityscape; I.Click_generate;
                           I.Settle 0 (Samples.answer Samples.picture)]
                     Samples.image_session))) <> []) by discriminate.
    split; [exact H |]. split; [vm_compute; reflexivity |].
    exact (f_equal I.imageLoading (proj1 (Hi ∅ Samples.time _ Samples.time H))).
Defined.

(** X7.  As long as generation is started with the buttons ("Generate",
    "Regenerate") and never with Ctrl+Enter, at most one gateway call is
    outstanding at any time, and the flag is set exactly while one is. *)
Theorem buttons_keep_single_flight :
  (forall store time evs,
      Forall (fun ev => T.by_keyboard ev = false) evs ->
      let s := T.play evs (T.mount store time) in
      (length (T.pending s) <= 1)%nat /\
      (T.isGenerating (T.state (T.world s)) = true <-> length (T.pending s) = 1%nat)) /\
  (forall store time evs,
      Forall (fun ev => I.by_keyboard ev = false) evs ->
      let s := I.play evs (I.mount store time) in
      (length (I.pending s) <= 1)%nat /\
      (I.isGenerating (I.state (I.world s)) = true <-> length (I.pending s) = 1%nat)).
Proof.
  split; intros store time evs Hevs; cbv zeta.
  - destruct (TextInvariants.buttons_single_flight store time evs Hevs)
      as [[Hg Hp] | [Hg [k Hp]]]; rewrite Hg, Hp; simpl;
      (split; [lia |]); split; congruence.
  - destruct (ImageInvariants.buttons_single_flight_image store time evs Hevs)
      as [[Hg Hp] | [Hg [k Hp]]]; rewrite Hg, Hp; simpl;
      (split; [lia |]); split; congruence.
Qed.

(** The buttons are clicked again and again while the first call is out. *)
Lemma buttons_keep_single_flight_witness :
  (let evs := [T.Change_prompt Samples.story; T.Click_generate; T.Click_generate;
               T.Click_regenerate 0; T.Click_generate] in
   Forall (fun ev => T.by_keyboard ev = false) evs /\
   length (T.pending (T.play evs Samples.text_session)) = 1%nat /\
   T.isGenerating (T.state (T.world (T.play evs Samples.text_session))) = true) /\
  (let evs := [I.Change_prompt Samples.cityscape; I.Click_generate; I.Click_generate;
               I.Click_regenerate_selected; I.Click_generate] in
   Forall (fun ev => I.by_keyboard ev = false) evs /\
   length (I.pending (I.play evs Samples.image_session)) = 1%nat /\
   I.isGenerating (I.state (I.world (I.play evs Samples.image_session))) = true).
Proof.
  destruct buttons_keep_single_flight as [Ht Hi].
  split; cbv zeta.
  - assert (H : Forall (fun ev => T.by_keyboard ev = false)
                  [T.Change_prompt Samples.story; T.Click_generate; T.Click_generate;
                   T.Click_regenerate 0; T.Click_generate])
      by (repeat constructor).
    split; [exact H |]. split; [reflexivity |].
    apply (proj2 (Ht ∅ Samples.time _ H)). reflexivity.
  - assert (H : Forall (fun ev => I.by_keyboard ev = false)
                  [I.Change_prompt Samples.cityscape; I.Click_generate; I.Click_generate;
                   I.Click_regenerate_selected; I.Click_generate])
      by (repeat constructor).
    split; [exact H |]. split; [reflexivity |].
    apply (proj2 (Hi ∅ Samples.time _ H)). reflexivity.
Defined.

(** ** Calls in flight *)

Module TextFlights.
Import TextGenerator.

Lemma generateText_resumes snap w w1 k :
  exec (generateText snap) w = (w1, Awaiting k) ->
  blank (prompt_state snap) = false /\ resumes snap k.
Proof.
  intros H. destruct (blank (prompt_state snap)) eqn:Hb.
  - rewrite (TextFacts.generateText_blank snap w Hb) in H. discriminate.
  - destruct (TextFacts.generateText_steps snap w Hb) as (k0 & Hexec & Hk).
    rewrite Hexec in H. injection H as _ <-. split; [reflexivity | exact Hk].
Qed.

(** The rest of a call ends in the turn it is resumed in, makes no call and
    shows at most one toast. *)
Lemma resumes_ends snap k r w :
  resumes snap k ->
  (forall k', snd (exec (k r) w) <> Awaiting k') /\
  calls (fst (exec (k r) w)) = calls w /\
  (toasts (fst (exec (k r) w)) = toasts w \/
   exists t, toasts (fst (exec (k r) w)) = t :: toasts w).
Proof.
  intros (H1 & H2 & H3 & H4).
  destruct (result_cases r)
    as [(p & Hu & Hc) | [[Hc Hu] | [(e & Hc & Hn & Hu) | (e & Hc & Hn & Hu)]]];
    [ rewrite (H1 r p w Hu) | rewrite (H2 r w Hc Hu)
    | rewrite (H3 r e w Hc Hn) | rewrite (H4 r e w Hc Hn) ];
    simpl; repeat split; try discriminate; eauto.
Qed.

Lemma handle_generated p s :
  generated s ->
  (forall w1 k, exec p (world s) = (w1, Awaiting k) ->
                exists snap, blank (prompt_state snap) = false /\ resumes snap k) ->
  generated (handle p s).
Proof.
  intros [_ Hk] Hawait. unfold handle.
  destruct (exec p (world s)) as [w' o] eqn:E.
  split; simpl; [apply TextFacts.commit_changed |].
  destruct o as [a | e | k]; try exact Hk.
  apply Forall_app. split; [exact Hk |].
  constructor; [exact (Hawait w' k eq_refl) | constructor].
Qed.

Lemma dispatch_generated ev s : generated s -> generated (dispatch ev s).
Proof.
  intros Hs. destruct ev as [p | t | | | card | card | answer | n r]; simpl.
  - apply handle_generated; [exact Hs | discriminate].
  - apply handle_generated; [exact Hs | discriminate].
  - destruct (isGenerating (state (world s)) || blank (prompt_state (state (world s))));
      [exact Hs |].
    apply handle_generated; [exact Hs |].
    intros w1 k E. eexists. exact (generateText_resumes _ _ _ _ E).
  - apply handle_generated; [exact Hs |].
    intros w1 k E. eexists. exact (generateText_resumes _ _ _ _ E).
  - destruct (texts (state (world s)) !! card) as [text |]; [| exact Hs].
    destruct (isGenerating (state (world s))); [exact Hs |].
    apply handle_generated; [exact Hs |].
    intros w1 k E. rewrite (proj1 regenerate_reads_render) in E.
    eexists. exact (generateText_resumes _ _ _ _ E).
  - destruct (texts (state (world s)) !! card) as [text |]; [| exact Hs].
    apply handle_generated; [exact Hs | discriminate].
  - destruct (0 <? length (texts (state (world s))))%nat; [| exact Hs].
    apply handle_generated; [exact Hs | destruct answer; discriminate].
  - destruct (pending s !! n) as [k |] eqn:Hn; [| exact Hs].
    destruct Hs as [Hc Hk].
    assert (Hok : exists snap, blank (prompt_state snap) = false /\ resumes snap k).
    { rewrite Forall_forall in Hk. apply Hk. apply list_elem_of_lookup. eauto. }
    destruct Hok as (snap & _ & Hres).
    apply handle_generated.
    + split; [exact Hc |]. simpl. apply Forall_delete. exact Hk.
    + intros w1 k' E. simpl in E.
      destruct (proj1 (resumes_ends snap k r (world s) Hres) k').
      rewrite E. reflexivity.
Qed.

Lemma reachable_generated store time evs : generated (play evs (mount store time)).
Proof.
  unfold play.
  assert (H0 : generated (mount store time)).
  { split; [| constructor]. apply TextFacts.commit_changed. }
  revert H0. generalize (mount store time).
  induction evs as [| ev evs IH]; intros s Hs; simpl; [exact Hs |].
  apply IH. apply dispatch_generated. exact Hs.
Qed.

(** What one event does to the calls in flight, the calls made and the
    toasts shown. *)
Lemma dispatch_flights ev s :
  generated s ->
  let s' := dispatch ev s in
  (by_gateway ev = false ->
   (pending s' = pending s /\ calls (world s') = calls (world s)) \/
   (exists k req, pending s' = pending s ++ [k] /\
                  calls (world s') = req :: calls (world s))) /\
  (by_gateway ev = true ->
   calls (world s') = calls (world s) /\
   (pending s' = pending s \/ S (length (pending s')) = length (pending s))) /\
  (toasts (world s') = toasts (world s) \/
   exists t, toasts (world s') = t :: toasts (world s)).
Proof.
  intros Hs. cbv zeta.
  assert (Hgen : forall snap w,
             let s' := {| world := commit (fst (exec (generateText snap) w));
                          pending := match snd (exec (generateText snap) w) with
                                     | Awaiting k => pending s ++ [k]
                                     | _ => pending s
                                     end |} in
             ((pending s' = pending s /\ calls (world s') = calls w) \/
              (exists k req, pending s' = pending s ++ [k] /\
                             calls (world s') = req :: calls w)) /\
             (toasts (world s') = toasts w \/
              exists t, toasts (world s') = t :: toasts w)).
  { intros snap w. cbv zeta. unfold calls, toasts. simpl.
    rewrite TextFacts.commit_trace.
    destruct (blank (prompt_state snap)) eqn:Hb.
    - rewrite (TextFacts.generateText_blank snap w Hb). simpl.
      split; [left; split; reflexivity | right; eexists; reflexivity].
    - destruct (TextFacts.generateText_steps snap w Hb) as (k & Hexec & _).
      rewrite Hexec. simpl.
      split; [right; do 2 eexists; split; reflexivity | left; reflexivity]. }
  assert (Hend : forall (p : Handler unit) w o,
             exec p (world s) = (w, o) ->
             (forall k, o <> Awaiting k) ->
             pending (handle p s) = pending s /\
             calls (world (handle p s)) = calls w /\
             toasts (world (handle p s)) = toasts w).
  { intros p w o E Ho. unfold handle, calls, toasts. rewrite E. simpl.
    rewrite TextFacts.commit_trace.
    destruct o as [a | e | k]; [auto | auto | destruct (Ho k eq_refl)]. }
  assert (Hsame : forall s' : Session,
             pending s' = pending s ->
             calls (world s') = calls (world s) ->
             toasts (world s') = toasts (world s) \/
             (exists t, toasts (world s') = t :: toasts (world s)) ->
             (false = false ->
              (pending s' = pending s /\ calls (world s') = calls (world s)) \/
              (exists k req, pending s' = pending s ++ [k] /\
                             calls (world s') = req :: calls (world s))) /\
             (false = true ->
              calls (world s') = calls (world s) /\
              (pending s' = pending s \/ S (length (pending s')) = length (pending s))) /\
             (toasts (world s') = toasts (world s) \/
              exists t, toasts (world s') = t :: toasts (world s))).
  { intros s' H1 H2 H3. split; [auto |]. split; [discriminate | exact H3]. }
  assert (Hstart : forall snap w,
             calls w = calls (world s) -> toasts w = toasts (world s) ->
             let s' := {| world := commit (fst (exec (generateText snap) w));
                          pending := match snd (exec (generateText snap) w) with
                                     | Awaiting k => pending s ++ [k]
                                     | _ => pending s
                                     end |} in
             (false = false ->
              (pending s' = pending s /\ calls (world s') = calls (world s)) \/
              (exists k req, pending s' = pending s ++ [k] /\
                             calls (world s') = req :: calls (world s))) /\
             (false = true ->
              calls (world s') = calls (world s) /\
              (pending s' = pending s \/ S (length (pending s')) = length (pending s))) /\
             (toasts (world s') = toasts (world s) \/
              exists t, toasts (world s') = t :: toasts (world s))).
  { intros snap w Hc Ht. destruct (Hgen snap w) as [H1 H2]. cbv zeta in *.
    rewrite Hc in H1. rewrite Ht in H2.
    split; [intros _; exact H1 |]. split; [discriminate | exact H2]. }
  destruct ev as [p | t | | | card | card | answer | n r];
    cbn [dispatch by_gateway].
  - destruct (Hend (call (setPrompt p)) _ _ eq_refl) as (H1 & H2 & H3);
      [discriminate |].
    apply Hsame; [exact H1 | exact H2 | left; exact H3].
  - destruct (Hend (call (setType t)) _ _ eq_refl) as (H1 & H2 & H3);
      [discriminate |].
    apply Hsame; [exact H1 | exact H2 | left; exact H3].
  - destruct (isGenerating (state (world s)) || blank (prompt_state (state (world s))));
      [apply Hsame; auto |].
    unfold handle. generalize (Hstart (state (world s)) (world s) eq_refl eq_refl).
    destruct (exec (generateText (state (world s))) (world s)) as [w o]. auto.
  - unfold handle. generalize (Hstart (state (world s)) (world s) eq_refl eq_refl).
    destruct (exec (generateText (state (world s))) (world s)) as [w o]. auto.
  - destruct (texts (state (world s)) !! card) as [text |]; [| apply Hsame; auto].
    destruct (isGenerating (state (world s))); [apply Hsame; auto |].
    unfold handle. rewrite (proj1 regenerate_reads_render).
    generalize (Hstart (state (world s))
                  (after (setType (type text)) (after (setPrompt (prompt text)) (world s)))
                  eq_refl eq_refl).
    destruct (exec (generateText (state (world s))) _) as [w o]. auto.
  - destruct (texts (state (world s)) !! card) as [text |]; [| apply Hsame; auto].
    destruct (Hend (deleteText (id text)) _ _ eq_refl) as (H1 & H2 & H3);
      [discriminate |].
    apply Hsame; [exact H1 | exact H2 | right; eexists; exact H3].
  - destruct (0 <? length (texts (state (world s))))%nat; [| apply Hsame; auto].
    destruct answer.
    + destruct (Hend (clearAll true) _ _ eq_refl) as (H1 & H2 & H3); [discriminate |].
      apply Hsame; [exact H1 | exact H2 | right; eexists; exact H3].
    + destruct (Hend (clearAll false) _ _ eq_refl) as (H1 & H2 & H3); [discriminate |].
      apply Hsame; [exact H1 | exact H2 | left; exact H3].
  - destruct (pending s !! n) as [k |] eqn:Hn.
    2: { split; [discriminate |]. split; [auto | left; reflexivity]. }
    destruct Hs as [Hc Hk].
    assert (Hok : exists snap, blank (prompt_state snap) = false /\ resumes snap k).
    { rewrite Forall_forall in Hk. apply Hk. apply list_elem_of_lookup. eauto. }
    destruct Hok as (snap & _ & Hres).
    destruct (resumes_ends snap k r (world s) Hres) as (Hfin & Hcalls & Htoasts).
    assert (Hlen : S (length (delete n (pending s))) = length (pending s)).
    { rewrite length_delete by eauto. apply lookup_lt_Some in Hn. lia. }
    unfold handle, calls, toasts in *. simpl.
    destruct (exec (k r) (world s)) as [w o]. simpl in *.
    rewrite TextFacts.commit_trace.
    split; [discriminate |].
    destruct o as [a | e | k']; [| | destruct (Hfin k' eq_refl)];
      (split; [intros _; split; [exact Hcalls | right; exact Hlen] | exact Htoasts]).
Qed.

End TextFlights.

Module ImageFlights.
Import ImageGenerator.

Lemma generateImage_resumes snap w w1 k :
  exec (generateImage snap) w = (w1, Awaiting k) ->
  blank (prompt_state snap) = false /\ resumes snap k.
Proof.
  intros H. destruct (blank (prompt_state snap)) eqn:Hb.
  - rewrite (ImageFacts.generateImage_blank snap w Hb) in H. discriminate.
  - destruct (ImageFacts.generateImage_steps snap w Hb) as (k0 & Hexec & Hk).
    rewrite Hexec in H. injection H as _ <-. split; [reflexivity | exact Hk].
Qed.

(** The rest of a call ends in the turn it is resumed in, makes no call,
    shows at most one toast, marks no image as failed and takes no loading
    mark away. *)
Lemma resumes_ends_image snap k r w :
  resumes snap k ->
  (forall k', snd (exec (k r) w) <> Awaiting k') /\
  calls (fst (exec (k r) w)) = calls w /\
  (toasts (fst (exec (k r) w)) = toasts w \/
   exists t, toasts (fst (exec (k r) w)) = t :: toasts w) /\
  imageErrors (state (fst (exec (k r) w))) = imageErrors (state w) /\
  imageLoading (state w) ⊆ imageLoading (state (fst (exec (k r) w))).
Proof.
  intros (H1 & H2 & H3 & H4).
  destruct (result_cases r)
    as [(p & Hu & Hc) | [[Hc Hu] | [(e & Hc & Hn & Hu) | (e & Hc & Hn & Hu)]]];
    [ rewrite (H1 r p w Hu) | rewrite (H2 r w Hc Hu)
    | rewrite (H3 r e w Hc Hn) | rewrite (H4 r e w Hc Hn) ];
    simpl; repeat split; try discriminate; eauto; set_solver.
Qed.

Lemma handle_generated_image p s :
  generated s ->
  (forall w1 k, exec p (world s) = (w1, Awaiting k) ->
                exists snap, blank (prompt_state snap) = false /\ resumes snap k) ->
  generated (handle p s).
Proof.
  intros [_ Hk] Hawait. unfold handle.
  destruct (exec p (world s)) as [w' o] eqn:E.
  split; simpl; [apply ImageFacts.commit_changed_image |].
  destruct o as [a | e | k]; try exact Hk.
  apply Forall_app. split; [exact Hk |].
  constructor; [exact (Hawait w' k eq_refl) | constructor].
Qed.

Ltac no_await Hs := apply handle_generated_image; [exact Hs | discriminate].

Lemma dispatch_generated_image ev s : generated s -> generated (dispatch ev s).
Proof.
  intros Hs.
  destruct ev as [p | | | card | | card | | card | | card | card | answer | n r];
    cbn [dispatch].
  - no_await Hs.
  - destruct (isGenerating (state (world s)) || blank (prompt_state (state (world s))));
      [exact Hs |].
    apply handle_generated_image; [exact Hs |].
    intros w1 k E. eexists. exact (generateImage_resumes _ _ _ _ E).
  - apply handle_generated_image; [exact Hs |].
    intros w1 k E. eexists. exact (generateImage_resumes _ _ _ _ E).
  - destruct (images (state (world s)) !! card) as [image |]; [| exact Hs].
    destruct (isGenerating (state (world s))); [exact Hs |].
    apply handle_generated_image; [exact Hs |].
    intros w1 k E. rewrite (proj2 regenerate_reads_render) in E.
    eexists. exact (generateImage_resumes _ _ _ _ E).
  - destruct (selectedImage (state (world s))) as [image |]; [| exact Hs].
    destruct (isGenerating (state (world s))); [exact Hs |].
    apply handle_generated_image; [exact Hs |].
    intros w1 k E. rewrite (proj2 regenerate_reads_render) in E.
    eexists. exact (generateImage_resumes _ _ _ _ E).
  - destruct (images (state (world s)) !! card) as [image |]; [| exact Hs]. no_await Hs.
  - no_await Hs.
  - destruct (images (state (world s)) !! card) as [image |]; [| exact Hs]. no_await Hs.
  - no_await Hs.
  - destruct (images (state (world s)) !! card) as [image |]; [| exact Hs]. no_await Hs.
  - destruct (images (state (world s)) !! card) as [image |]; [| exact Hs]. no_await Hs.
  - destruct (0 <? length (images (state (world s))))%nat; [| exact Hs].
    apply handle_generated_image; [exact Hs | destruct answer; discriminate].
  - destruct (pending s !! n) as [k |] eqn:Hn; [| exact Hs].
    destruct Hs as [Hc Hk].
    assert (Hok : exists snap, blank (prompt_state snap) = false /\ resumes snap k).
    { rewrite Forall_forall in Hk. apply Hk. apply list_elem_of_lookup. eauto. }
    destruct Hok as (snap & _ & Hres).
    apply handle_generated_image.
    + split; [exact Hc |]. simpl. apply Forall_delete. exact Hk.
    + intros w1 k' E. simpl in E.
      destruct (proj1 (resumes_ends_image snap k r (world s) Hres) k').
      rewrite E. reflexivity.
Qed.

Lemma reachable_generated_image store time evs : generated (play evs (mount store time)).
Proof.
  unfold play.
  assert (H0 : generated (mount store time)).
  { split; [| constructor]. apply ImageFacts.commit_changed_image. }
  revert H0. generalize (mount store time).
  induction evs as [| ev evs IH]; intros s Hs; simpl; [exact Hs |].
  apply IH. apply dispatch_generated_image. exact Hs.
Qed.

Lemma dispatch_flights_image ev s :
  generated s ->
  let s' := dispatch ev s in
  (by_gateway ev = false ->
   (pending s' = pending s /\ calls (world s') = calls (world s)) \/
   (exists k req, pending s' = pending s ++ [k] /\
                  calls (world s') = req :: calls (world s))) /\
  (by_gateway ev = true ->
   calls (world s') = calls (world s) /\
   (pending s' = pending s \/ S (length (pending s')) = length (pending s))) /\
  (toasts (world s') = toasts (world s) \/
   exists t, toasts (world s') = t :: toasts (world s)).
Proof.
  intros Hs. cbv zeta.
  assert (Hgen : forall snap w,
             let s' := {| world := commit (fst (exec (generateImage snap) w));
                          pending := match snd (exec (generateImage snap) w) with
                                     | Awaiting k => pending s ++ [k]
                                     | _ => pending s
                                     end |} in
             ((pending s' = pending s /\ calls (world s') = calls w) \/
              (exists k req, pending s' = pending s ++ [k] /\
                             calls (world s') = req :: calls w)) /\
             (toasts (world s') = toasts w \/
              exists t, toasts (world s') = t :: toasts w)).
  { intros snap w. cbv zeta. unfold calls, toasts. simpl.
    rewrite ImageFacts.commit_trace_image.
    destruct (blank (prompt_state snap)) eqn:Hb.
    - rewrite (ImageFacts.generateImage_blank snap w Hb). simpl.
      split; [left; split; reflexivity | right; eexists; reflexivity].
    - destruct (ImageFacts.generateImage_steps snap w Hb) as (k & Hexec & _).
      rewrite Hexec. simpl.
      split; [right; do 2 eexists; split; reflexivity | left; reflexivity]. }
  assert (Hend : forall (p : Handler unit) w o,
             exec p (world s) = (w, o) ->
             (forall k, o <> Awaiting k) ->
             pending (handle p s) = pending s /\
             calls (world (handle p s)) = calls w /\
             toasts (world (handle p s)) = toasts w).
  { intros p w o E Ho. unfold handle, calls, toasts. rewrite E. simpl.
    rewrite ImageFacts.commit_trace_image.
    destruct o as [a | e | k]; [auto | auto | destruct (Ho k eq_refl)]. }
  assert (Hsame : forall s' : Session,
             pending s' = pending s ->
             calls (world s') = calls (world s) ->
             toasts (world s') = toasts (world s) \/
             (exists t, toasts (world s') = t :: toasts (world s)) ->
             (false = false ->
              (pending s' = pending s /\ calls (world s') = calls (world s)) \/
              (exists k req, pending s' = pending s ++ [k] /\
                             calls (world s') = req :: calls (world s))) /\
             (false = true ->
              calls (world s') = calls (world s) /\
              (pending s' = pending s \/ S (length (pending s')) = length (pending s))) /\
             (toasts (world s') = toasts (world s) \/
              exists t, toasts (world s') = t :: toasts (world s))).
  { intros s' H1 H2 H3. split; [auto |]. split; [discriminate | exact H3]. }
  assert (Hstart : forall snap w,
             calls w = calls (world s) -> toasts w = toasts (world s) ->
             let s' := {| world := commit (fst (exec (generateImage snap) w));
                          pending := match snd (exec (generateImage snap) w) with
                                     | Awaiting k => pending s ++ [k]
                                     | _ => pending s
                                     end |} in
             (false = false ->
              (pending s' = pending s /\ calls (world s') = calls (world s)) \/
              (exists k req, pending s' = pending s ++ [k] /\
                             calls (world s') = req :: calls (world s))) /\
             (false = true ->
              calls (world s') = calls (world s) /\
              (pending s' = pending s \/ S (length (pending s')) = length (pending s))) /\
             (toasts (world s') = toasts (world s) \/
              exists t, toasts (world s') = t :: toasts (world s))).
  { intros snap w Hc Ht. destruct (Hgen snap w) as [H1 H2]. cbv zeta in *.
    rewrite Hc in H1. rewrite Ht in H2.
    split; [intros _; exact H1 |]. split; [discriminate | exact H2]. }
  assert (Hsilent : forall p : Handler unit,
             (exists w o, exec p (world s) = (w, o) /\
                          (forall k, o <> Awaiting k) /\
                          trace w = trace (world s)) ->
             (false = false ->
              (pending (handle p s) = pending s /\
               calls (world (handle p s)) = calls (world s)) \/
              (exists k req, pending (handle p s) = pending s ++ [k] /\
                             calls (world (handle p s)) = req :: calls (world s))) /\
             (false = true ->
              calls (world (handle p s)) = calls (world s) /\
              (pending (handle p s) = pending s \/
               S (length (pending (handle p s))) = length (pending s))) /\
             (toasts (world (handle p s)) = toasts (world s) \/
              exists t, toasts (world (handle p s)) = t :: toasts (world s))).
  { intros p (w & o & E & Ho & Htr).
    destruct (Hend p w o E Ho) as (H1 & H2 & H3).
    unfold calls, toasts in *. rewrite Htr in H2, H3.
    apply Hsame; [exact H1 | exact H2 | left; exact H3]. }
  destruct ev as [p | | | card | | card | | card | | card | card | answer | n r];
    cbn [dispatch by_gateway].
  - apply Hsilent. do 2 eexists. split; [reflexivity |]. split; [discriminate | reflexivity].
  - destruct (isGenerating (state (world s)) || blank (prompt_state (state (world s))));
      [apply Hsame; auto |].
    unfold handle. generalize (Hstart (state (world s)) (world s) eq_refl eq_refl).
    destruct (exec (generateImage (state (world s))) (world s)) as [w o]. auto.
  - unfold handle. generalize (Hstart (state (world s)) (world s) eq_refl eq_refl).
    destruct (exec (generateImage (state (world s))) (world s)) as [w o]. auto.
  - destruct (images (state (world s)) !! card) as [image |]; [| apply Hsame; auto].
    destruct (isGenerating (state (world s))); [apply Hsame; auto |].
    unfold handle. rewrite (proj2 regenerate_reads_render).
    generalize (Hstart (state (world s)) (after (setPrompt (prompt image)) (world s))
                  eq_refl eq_refl).
    destruct (exec (generateImage (state (world s))) _) as [w o]. auto.
  - destruct (selectedImage (state (world s))) as [image |]; [| apply Hsame; auto].
    destruct (isGenerating (state (world s))); [apply Hsame; auto |].
    unfold handle. rewrite (proj2 regenerate_reads_render).
    generalize (Hstart (state (world s)) (after (setPrompt (prompt image)) (world s))
                  eq_refl eq_refl).
    destruct (exec (generateImage (state (world s))) _) as [w o]. auto.
  - destruct (images (state (world s)) !! card) as [image |]; [| apply Hsame; auto].
    apply Hsilent. do 2 eexists. split; [reflexivity |]. split; [discriminate | reflexivity].
  - apply Hsilent. do 2 eexists. split; [reflexivity |]. split; [discriminate | reflexivity].
  - destruct (images (state (world s)) !! card) as [image |]; [| apply Hsame; auto].
    apply Hsilent. do 2 eexists. split; [reflexivity |]. split; [discriminate | reflexivity].
  - apply Hsilent. do 2 eexists. split; [reflexivity |]. split; [discriminate | reflexivity].
  - destruct (images (state (world s)) !! card) as [image |]; [| apply Hsame; auto].
    apply Hsilent. do 2 eexists. split; [reflexivity |]. split; [discriminate | reflexivity].
  - destruct (images (state (world s)) !! card) as [image |]; [| apply Hsame; auto].
    destruct (Hend (handleImageError (id image)) _ _ eq_refl) as (H1 & H2 & H3);
      [discriminate |].
    apply Hsame; [exact H1 | exact H2 | right; eexists; exact H3].
  - destruct (0 <? length (images (state (world s))))%nat; [| apply Hsame; auto].
    destruct answer.
    + destruct (Hend (clearAll true) _ _ eq_refl) as (H1 & H2 & H3); [discriminate |].
      apply Hsame; [exact H1 | exact H2 | right; eexists; exact H3].
    + destruct (Hend (clearAll false) _ _ eq_refl) as (H1 & H2 & H3); [discriminate |].
      apply Hsame; [exact H1 | exact H2 | left; exact H3].
  - destruct (pending s !! n) as [k |] eqn:Hn.
    2: { split; [discriminate |]. split; [auto | left; reflexivity]. }
    destruct Hs as [Hc Hk].
    assert (Hok : exists snap, blank (prompt_state snap) = false /\ resumes snap k).
    { rewrite Forall_forall in Hk. apply Hk. apply list_elem_of_lookup. eauto. }
    destruct Hok as (snap & _ & Hres).
    destruct (resumes_ends_image snap k r (world s) Hres)
      as (Hfin & Hcalls & Htoasts & _).
    assert (Hlen : S (length (delete n (pending s))) = length (pending s)).
    { rewrite length_delete by eauto. apply lookup_lt_Some in Hn. lia. }
    unfold handle, calls, toasts in *. simpl.
    destruct (exec (k r) (world s)) as [w o]. simpl in *.
    rewrite ImageFacts.commit_trace_image.
    split; [discriminate |].
    destruct o as [a | e | k']; [| | destruct (Hfin k' eq_refl)];
      (split; [intros _; split; [exact Hcalls | right; exact Hlen] | exact Htoasts]).
Qed.

(** What one event does to the marks of the tracker: a failure mark is
    never taken away, and a loading mark is taken away by the events of the
    picture itself only. *)
Lemma dispatch_tracker ev s :
  generated s ->
  imageErrors (state (world s)) ⊆ imageErrors (state (world (dispatch ev s))) /\
  (match ev with
   | Image_loaded _ | Image_failed _ => True
   | _ => imageLoading (state (world s)) ⊆ imageLoading (state (world (dispatch ev s)))
   end).
Proof.
  intros Hs.
  assert (Hstart : forall snap w,
             imageErrors (state (fst (exec (generateImage snap) w))) = imageErrors (state w) /\
             imageLoading (state (fst (exec (generateImage snap) w)))
             = imageLoading (state w)).
  { intros snap w. destruct (blank (prompt_state snap)) eqn:Hb.
    - rewrite (ImageFacts.generateImage_blank snap w Hb). split; reflexivity.
    - destruct (ImageFacts.generateImage_steps snap w Hb) as (k & Hexec & _).
      rewrite Hexec. split; reflexivity. }
  assert (Hhandle : forall (p : Handler unit) (s0 : Session),
             state (world (handle p s0)) = state (fst (exec p (world s0)))).
  { intros p s0. unfold handle. destruct (exec p (world s0)) as [w o]. simpl.
    apply ImageFacts.commit_state_image. }
  destruct ev as [p | | | card | | card | | card | | card | card | answer | n r];
    cbn [dispatch].
  - rewrite Hhandle. split; reflexivity.
  - destruct (isGenerating (state (world s)) || blank (prompt_state (state (world s))));
      [split; reflexivity |].
    rewrite Hhandle.
    destruct (Hstart (state (world s)) (world s)) as [-> ->]. split; reflexivity.
  - rewrite Hhandle.
    destruct (Hstart (state (world s)) (world s)) as [-> ->]. split; reflexivity.
  - destruct (images (state (world s)) !! card) as [image |]; [| split; reflexivity].
    destruct (isGenerating (state (world s))); [split; reflexivity |].
    rewrite Hhandle, (proj2 regenerate_reads_render).
    destruct (Hstart (state (world s)) (after (setPrompt (prompt image)) (world s)))
      as [-> ->].
    split; reflexivity.
  - destruct (selectedImage (state (world s))) as [image |]; [| split; reflexivity].
    destruct (isGenerating (state (world s))); [split; reflexivity |].
    rewrite Hhandle, (proj2 regenerate_reads_render).
    destruct (Hstart (state (world s)) (after (setPrompt (prompt image)) (world s)))
      as [-> ->].
    split; reflexivity.
  - destruct (images (state (world s)) !! card) as [image |]; [| split; reflexivity].
    rewrite Hhandle. split; reflexivity.
  - rewrite Hhandle. split; reflexivity.
  - destruct (images (state (world s)) !! card) as [image |]; [| split; reflexivity].
    rewrite Hhandle. split; reflexivity.
  - rewrite Hhandle. split; reflexivity.
  - destruct (images (state (world s)) !! card) as [image |];
      [| split; [reflexivity | exact I]].
    rewrite Hhandle. split; [reflexivity | exact I].
  - destruct (images (state (world s)) !! card) as [image |];
      [| split; [reflexivity | exact I]].
    rewrite Hhandle. split; [simpl; apply union_subseteq_l | exact I].
  - destruct (0 <? length (images (state (world s))))%nat; [| split; reflexivity].
    rewrite Hhandle. destruct answer; split; reflexivity.
  - destruct (pending s !! n) as [k |] eqn:Hn; [| split; reflexivity].
    destruct Hs as [Hc Hk].
    assert (Hok : exists snap, blank (prompt_state snap) = false /\ resumes snap k).
    { rewrite Forall_forall in Hk. apply Hk. apply list_elem_of_lookup. eauto. }
    destruct Hok as (snap & _ & Hres).
    destruct (resumes_ends_image snap k r (world s) Hres) as (_ & _ & _ & He & Hl).
    rewrite Hhandle. simpl. rewrite He. split; [reflexivity | exact Hl].
Qed.

End ImageFlights.

(** X8.  In every reachable session: an action of the user never takes a
    call out of flight (nothing cancels a call) and starts at most one
    call; an answer of the gateway, good or bad, starts no call (nothing is
    retried) and takes at most one call out of flight; and every event
    shows at most one toast. *)
Theorem events_calls_and_toasts :
  (forall store time evs ev,
      let s := T.play evs (T.mount store time) in
      let s' := T.dispatch ev s in
      (T.by_gateway ev = false ->
       (T.pending s' = T.pending s /\ T.calls (T.world s') = T.calls (T.world s)) \/
       (exists k req, T.pending s' = T.pending s ++ [k] /\
                      T.calls (T.world s') = req :: T.calls (T.world s))) /\
      (T.by_gateway ev = true ->
       T.calls (T.world s') = T.calls (T.world s) /\
       (T.pending s' = T.pending s \/
        S (length (T.pending s')) = length (T.pending s))) /\
      (T.toasts (T.world s') = T.toasts (T.world s) \/
       exists t, T.toasts (T.world s') = t :: T.toasts (T.world s))) /\
  (forall store time evs ev,
      let s := I.play evs (I.mount store time) in
      let s' := I.dispatch ev s in
      (I.by_gateway ev = false ->
       (I.pending s' = I.pending s /\ I.calls (I.world s') = I.calls (I.world s)) \/
       (exists k req, I.pending s' = I.pending s ++ [k] /\
                      I.calls (I.world s') = req :: I.calls (I.world s))) /\
      (I.by_gateway ev = true ->
       I.calls (I.world s') = I.calls (I.world s) /\
       (I.pending s' = I.pending s \/
        S (length (I.pending s')) = length (I.pending s))) /\
      (I.toasts (I.world s') = I.toasts (I.world s) \/
       exists t, I.toasts (I.world s') = t :: I.toasts (I.world s))).
Proof.
  split; intros store time evs ev.
  - apply TextFlights.dispatch_flights. apply TextFlights.reachable_generated.
  - apply ImageFlights.dispatch_flights_image. apply ImageFlights.reachable_generated_image.
Qed.

(** A refusal arrives while two calls are in flight. *)
Lemma events_calls_and_toasts_witness :
  (let s := T.play [T.Change_prompt Samples.story; T.Click_generate; T.Ctrl_Enter]
              Samples.text_session in
   let s' := T.dispatch (T.Settle 1 Samples.refusal) s in
   T.by_gateway (T.Settle 1 Samples.refusal) = true /\
   length (T.pending s) = 2%nat /\
   T.calls (T.world s') = T.calls (T.world s) /\
   length (T.pending s') = 1%nat) /\
  (let s := I.play [I.Change_prompt Samples.cityscape; I.Click_generate; I.Ctrl_Enter]
              Samples.image_session in
   let s' := I.dispatch (I.Settle 1 Samples.refusal) s in
   I.by_gateway (I.Settle 1 Samples.refusal) = true /\
   length (I.pending s) = 2%nat /\
   I.calls (I.world s') = I.calls (I.world s) /\
   length (I.pending s') = 1%nat).
Proof.
  destruct events_calls_and_toasts as [Ht Hi].
  split; cbv zeta.
  - destruct (Ht ∅ Samples.time
                [T.Change_prompt Samples.story; T.Click_generate; T.Ctrl_Enter]
                (T.Settle 1 Samples.refusal)) as (_ & H & _).
    destruct (H eq_refl) as [Hc _].
    split; [reflexivity |]. split; [reflexivity |]. split; [exact Hc | reflexivity].
  - destruct (Hi ∅ Samples.time
                [I.Change_prompt Samples.cityscape; I.Click_generate; I.Ctrl_Enter]
                (I.Settle 1 Samples.refusal)) as (_ & H & _).
    destruct (H eq_refl) as [Hc _].
    split; [reflexivity |]. split; [reflexivity |]. split; [exact Hc | reflexivity].
Defined.

(** ** What leaves the collection alone *)

Lemma generate_start_keeps :
  (forall (snap : T.State) (w : T.World),
      T.texts_changed (fst (T.exec (T.generateText snap) w)) = T.texts_changed w /\
      T.texts (T.state (fst (T.exec (T.generateText snap) w))) = T.texts (T.state w) /\
      T.localStorage (fst (T.exec (T.generateText snap) w)) = T.localStorage w) /\
  (forall (snap : I.State) (w : I.World),
      I.images_changed (fst (I.exec (I.generateImage snap) w)) = I.images_changed w /\
      I.images (I.state (fst (I.exec (I.generateImage snap) w))) = I.images (I.state w) /\
      I.localStorage (fst (I.exec (I.generateImage snap) w)) = I.localStorage w).
Proof.
  split; intros snap w.
  - destruct (blank (T.prompt_state snap)) eqn:Hb.
    + rewrite (TextFacts.generateText_blank snap w Hb). repeat split.
    + destruct (TextFacts.generateText_steps snap w Hb) as (k & Hexec & _).
      rewrite Hexec. repeat split.
  - destruct (blank (I.prompt_state snap)) eqn:Hb.
    + rewrite (ImageFacts.generateImage_blank snap w Hb). repeat split.
    + destruct (ImageFacts.generateImage_steps snap w Hb) as (k & Hexec & _).
      rewrite Hexec. repeat split.
Qed.

Lemma handle_keeps :
  (forall (p : T.Handler unit) (s : T.Session),
      T.texts_changed (T.world s) = false ->
      T.texts_changed (fst (T.exec p (T.world s))) = T.texts_changed (T.world s) /\
      T.texts (T.state (fst (T.exec p (T.world s)))) = T.texts (T.state (T.world s)) /\
      T.localStorage (fst (T.exec p (T.world s))) = T.localStorage (T.world s) ->
      T.texts (T.state (T.world (T.handle p s))) = T.texts (T.state (T.world s)) /\
      T.localStorage (T.world (T.handle p s)) = T.localStorage (T.world s)) /\
  (forall (p : I.Handler unit) (s : I.Session),
      I.images_changed (I.world s) = false ->
      I.images_changed (fst (I.exec p (I.world s))) = I.images_changed (I.world s) /\
      I.images (I.state (fst (I.exec p (I.world s)))) = I.images (I.state (I.world s)) /\
      I.localStorage (fst (I.exec p (I.world s))) = I.localStorage (I.world s) ->
      I.images (I.state (I.world (I.handle p s))) = I.images (I.state (I.world s)) /\
      I.localStorage (I.world (I.handle p s)) = I.localStorage (I.world s)).
Proof.
  split; intros p s Hc (H1 & H2 & H3).
  - unfold T.handle. destruct (T.exec p (T.world s)) as [w o]. simpl in *.
    rewrite TextFacts.commit_state, TextFacts.commit_storage, H1, Hc. simpl. auto.
  - unfold I.handle. destruct (I.exec p (I.world s)) as [w o]. simpl in *.
    rewrite ImageFacts.commit_state_image, ImageFacts.commit_storage_image, H1, Hc.
    simpl. auto.
Qed.

(** X9.  In every reachable session the collection and the store change
    only through a removal, a clearing or the answer to a call.  Typing,
    choosing a style, starting a generation with the button or the
    keyboard, asking for a regeneration and, for images, hovering,
    selecting and the loading events of a picture leave both exactly as
    they were. *)
Theorem collection_changes_only_by :
  (forall store time evs ev,
      T.edits_collection ev = false ->
      let s := T.play evs (T.mount store time) in
      T.texts (T.state (T.world (T.dispatch ev s))) = T.texts (T.state (T.world s)) /\
      T.localStorage (T.world (T.dispatch ev s)) = T.localStorage (T.world s)) /\
  (forall store time evs ev,
      I.edits_collection ev = false ->
      let s := I.play evs (I.mount store time) in
      I.images (I.state (I.world (I.dispatch ev s))) = I.images (I.state (I.world s)) /\
      I.localStorage (I.world (I.dispatch ev s)) = I.localStorage (I.world s)).
Proof.
  destruct generate_start_keeps as [Gt Gi]. destruct handle_keeps as [Kt Ki].
  split; intros store time evs ev Hev; cbv zeta.
  - destruct (TextFlights.reachable_generated store time evs) as [Hc _].
    set (s := T.play evs (T.mount store time)) in *.
    destruct ev as [p | t | | | card | card | answer | n r];
      try discriminate; cbn [T.dispatch].
    + apply Kt; [exact Hc | repeat split].
    + apply Kt; [exact Hc | repeat split].
    + destruct (T.isGenerating (T.state (T.world s))
                || blank (T.prompt_state (T.state (T.world s)))); [auto |].
      apply Kt; [exact Hc | apply Gt].
    + apply Kt; [exact Hc | apply Gt].
    + destruct (T.texts (T.state (T.world s)) !! card) as [text |]; [| auto].
      destruct (T.isGenerating (T.state (T.world s))); [auto |].
      apply Kt; [exact Hc |]. rewrite (proj1 regenerate_reads_render).
      destruct (Gt (T.state (T.world s))
                  (T.after (T.setType (T.type text))
                     (T.after (T.setPrompt (T.prompt text)) (T.world s))))
        as (H1 & H2 & H3).
      rewrite H1, H2, H3. repeat split.
  - destruct (ImageFlights.reachable_generated_image store time evs) as [Hc _].
    set (s := I.play evs (I.mount store time)) in *.
    destruct ev as [p | | | card | | card | | card | | card | card | answer | n r];
      try discriminate; cbn [I.dispatch].
    + apply Ki; [exact Hc | repeat split].
    + destruct (I.isGenerating (I.state (I.world s))
                || blank (I.prompt_state (I.state (I.world s)))); [auto |].
      apply Ki; [exact Hc | apply Gi].
    + apply Ki; [exact Hc | apply Gi].
    + destruct (I.images (I.state (I.world s)) !! card) as [image |]; [| auto].
      destruct (I.isGenerating (I.state (I.world s))); [auto |].
      apply Ki; [exact Hc |]. rewrite (proj2 regenerate_reads_render).
      destruct (Gi (I.state (I.world s)) (I.after (I.setPrompt (I.prompt image)) (I.world s)))
        as (H1 & H2 & H3).
      rewrite H1, H2, H3. repeat split.
    + destruct (I.selectedImage (I.state (I.world s))) as [image |]; [| auto].
      destruct (I.isGenerating (I.state (I.world s))); [auto |].
      apply Ki; [exact Hc |]. rewrite (proj2 regenerate_reads_render).
      destruct (Gi (I.state (I.world s)) (I.after (I.setPrompt (I.prompt image)) (I.world s)))
        as (H1 & H2 & H3).
      rewrite H1, H2, H3. repeat split.
    + destruct (I.images (I.state (I.world s)) !! card) as [image |]; [| auto].
      apply Ki; [exact Hc | repeat split].
    + apply Ki; [exact Hc | repeat split].
    + destruct (I.images (I.state (I.world s)) !! card) as [image |]; [| auto].
      apply Ki; [exact Hc | repeat split].
    + apply Ki; [exact Hc | repeat split].
    + destruct (I.images (I.state (I.world s)) !! card) as [image |]; [| auto].
      apply Ki; [exact Hc | repeat split].
    + destruct (I.images (I.state (I.world s)) !! card) as [image |]; [| auto].
      apply Ki; [exact Hc | repeat split].
Qed.

(** Ctrl+Enter on a stored collection, and a picture that fails to load. *)
Lemma collection_changes_only_by_witness :
  (let s := T.play [T.Change_prompt Samples.story; T.Click_generate;
                    T.Settle 0 (Samples.answer Samples.once);
                    T.Change_prompt Samples.hello] Samples.text_session in
   T.edits_collection T.Ctrl_Enter = false /\
   T.texts (T.state (T.world (T.dispatch T.Ctrl_Enter s))) = [Samples.story_text]) /\
  (let s := I.play [I.Change_prompt Samples.cityscape; I.Click_generate;
                    I.Settle 0 (Samples.answer Samples.picture)] Samples.image_session in
   I.edits_collection (I.Image_failed 0) = false /\
   I.images (I.state (I.world (I.dispatch (I.Image_failed 0) s)))
   = [Samples.cityscape_image]).
Proof.
  destruct collection_changes_only_by as [Ht Hi].
  split; cbv zeta; (split; [reflexivity |]).
  - exact (proj1 (Ht ∅ Samples.time
                    [T.Change_prompt Samples.story; T.Click_generate;
                     T.Settle 0 (Samples.answer Samples.once);
                     T.Change_prompt Samples.hello] T.Ctrl_Enter eq_refl)).
  - exact (proj1 (Hi ∅ Samples.time
                    [I.Change_prompt Samples.cityscape; I.Click_generate;
                     I.Settle 0 (Samples.answer Samples.picture)]
                    (I.Image_failed 0) eq_refl)).
Defined.

(** ** The marks of the image tracker *)

Lemma errors_grow (more : list I.ui_event) (s : I.Session) :
  I.generated s ->
  I.imageErrors (I.state (I.world s))
  ⊆ I.imageErrors (I.state (I.world (I.play more s))).
Proof.
  unfold I.play. revert s. induction more as [| ev more IH]; intros s Hs; simpl.
  - reflexivity.
  - etransitivity; [apply (ImageFlights.dispatch_tracker ev s Hs) |].
    apply IH. apply ImageFlights.dispatch_generated_image. exact Hs.
Qed.

(** X10.  For a picture shown on a card, [onError] marks its id as failed
    and no longer loading, and [onLoad] takes the loading mark away and
    leaves the failure marks as they are.  In a reachable session a loading
    mark goes away through these two events only, and a failure mark never
    goes away: whatever happens after a picture failed (new generations,
    their answers, Clear All), its id stays marked as failed. *)
Theorem failure_marks_stay :
  (forall (s : I.Session) (card : nat) (image : I.GeneratedImage),
      I.images (I.state (I.world s)) !! card = Some image ->
      let failed := I.state (I.world (I.dispatch (I.Image_failed card) s)) in
      let loaded := I.state (I.world (I.dispatch (I.Image_loaded card) s)) in
      (I.id image ∈ I.imageErrors failed) /\
      (I.id image ∉ I.imageLoading failed) /\
      (I.id image ∉ I.imageLoading loaded) /\
      I.imageErrors loaded = I.imageErrors (I.state (I.world s))) /\
  (forall store time evs ev,
      I.by_picture ev = false ->
      let s := I.play evs (I.mount store time) in
      I.imageLoading (I.state (I.world s))
      ⊆ I.imageLoading (I.state (I.world (I.dispatch ev s)))) /\
  (forall store time evs (card : nat) (image : I.GeneratedImage) more,
      let s := I.play evs (I.mount store time) in
      I.images (I.state (I.world s)) !! card = Some image ->
      I.id image
      ∈ I.imageErrors (I.state (I.world (I.play more (I.dispatch (I.Image_failed card) s))))).
Proof.
  assert (Hfail : forall (s : I.Session) (card : nat) (image : I.GeneratedImage),
             I.images (I.state (I.world s)) !! card = Some image ->
             I.id image
             ∈ I.imageErrors (I.state (I.world (I.dispatch (I.Image_failed card) s)))).
  { intros s card image H. cbn [I.dispatch]. rewrite H. unfold I.handle. simpl.
    rewrite ImageFacts.commit_state_image. simpl.
    apply elem_of_union_r, elem_of_singleton. reflexivity. }
  split; [| split].
  - intros s card image H. cbv zeta. split; [exact (Hfail s card image H) |].
    cbn [I.dispatch]. rewrite H. unfold I.handle. simpl.
    rewrite !ImageFacts.commit_state_image. simpl.
    assert (Hgone : forall marks : gset jsstring, I.id image ∉ marks ∖ {[ I.id image ]}).
    { intros marks Hin. apply elem_of_difference in Hin. destruct Hin as [_ Hin].
      apply Hin, elem_of_singleton. reflexivity. }
    split; [apply Hgone |]. split; [apply Hgone | reflexivity].
  - intros store time evs ev Hev. cbv zeta.
    generalize (proj2 (ImageFlights.dispatch_tracker ev (I.play evs (I.mount store time))
                         (ImageFlights.reachable_generated_image store time evs))).
    destruct ev; try discriminate; auto.
  - intros store time evs card image more. cbv zeta. intros H.
    apply (errors_grow more).
    + apply ImageFlights.dispatch_generated_image.
      apply ImageFlights.reachable_generated_image.
    + exact (Hfail _ card image H).
Qed.

(** A picture fails to load; the gallery is cleared and a new picture is
    generated. *)
Lemma failure_marks_stay_witness :
  let s := I.play [I.Change_prompt Samples.cityscape; I.Click_generate;
                   I.Settle 0 (Samples.answer Samples.picture)] Samples.image_session in
  let more := [I.Click_clear true; I.Change_prompt Samples.hello; I.Click_generate;
               I.Settle 0 (Samples.answer Samples.picture)] in
  I.images (I.state (I.world s)) !! 0%nat = Some Samples.cityscape_image /\
  I.id Samples.cityscape_image
  ∈ I.imageErrors (I.state (I.world (I.play more (I.dispatch (I.Image_failed 0) s)))).
Proof.
  cbv zeta. split; [reflexivity |].
  apply (proj2 (proj2 failure_marks_stay) ∅ Samples.time
           [I.Change_prompt Samples.cityscape; I.Click_generate;
            I.Settle 0 (Samples.answer Samples.picture)]
           0%nat Samples.cityscape_image).
  reflexivity.
Defined.

(** ** The active tab *)

Module StudioFacts.
Import AIStudio.

Ltac step_shell :=
  cbn [mbind Async_bind bind call run perform fst snd exec saveEffect
       activeTab rendered localStorage truthy_string andb].

Lemma mount_tab store :
  tidy store (mount store) /\
  activeTab (mount store)
  = match store !! storage_key with
    | Some v => if bool_decide (v = js "image") || bool_decide (v = js "text")
                then v else js "image"
    | None => js "image"
    end.
Proof.
  assert (Hother : forall (v : jsstring) (m : gmap string jsstring) key,
             key <> storage_key -> <[storage_key := v]> m !! key = m !! key).
  { intros v m key Hk. apply lookup_insert_ne. congruence. }
  unfold mount, loadEffect, tidy, commit, initial_tab. step_shell.
  destruct (store !! storage_key) as [v |] eqn:Hv.
  - destruct (bool_decide_reflect (v = js "image")) as [-> | Hi].
    { step_shell. rewrite bool_decide_eq_true_2 by reflexivity.
      split; [| reflexivity]. split; [reflexivity |]. split; [auto |].
      split; [apply lookup_insert_eq | intros key Hk; apply Hother; exact Hk]. }
    destruct (bool_decide_reflect (v = js "text")) as [-> | Ht].
    { step_shell. rewrite bool_decide_eq_false_2 by discriminate. step_shell.
      split; [| reflexivity]. split; [reflexivity |]. split; [auto |].
      split; [apply lookup_insert_eq |].
      intros key Hk. rewrite !Hother by exact Hk. reflexivity. }
    rewrite andb_false_r. step_shell.
    rewrite bool_decide_eq_true_2 by reflexivity.
    split; [| reflexivity]. split; [reflexivity |]. split; [auto |].
    split; [apply lookup_insert_eq | intros key Hk; apply Hother; exact Hk].
  - step_shell. rewrite bool_decide_eq_true_2 by reflexivity.
    split; [| reflexivity]. split; [reflexivity |]. split; [auto |].
    split; [apply lookup_insert_eq | intros key Hk; apply Hother; exact Hk].
Qed.

Lemma select_tab store t w :
  tidy store w -> tidy store (select t w) /\ activeTab (select t w) = value t.
Proof.
  intros (Hr & Hv & Hs & Ho). unfold select, commit, tidy. step_shell.
  rewrite Hr.
  destruct (bool_decide_reflect (value t = activeTab w)) as [E | E]; step_shell.
  - rewrite <- E in *. split; [| reflexivity]. split; [reflexivity |].
    split; [destruct t; auto |]. split; [exact Hs | exact Ho].
  - split; [| reflexivity]. split; [reflexivity |].
    split; [destruct t; auto |]. split; [apply lookup_insert_eq |].
    intros key Hk. rewrite lookup_insert_ne by congruence. apply Ho. exact Hk.
Qed.

Lemma play_tab store ts w :
  tidy store w ->
  tidy store (play ts w) /\
  activeTab (play ts w) = match last ts with Some t => value t | None => activeTab w end.
Proof.
  unfold play. revert w. induction ts as [| t ts IH]; intros w Hw; simpl.
  - auto.
  - destruct (select_tab store t w Hw) as [Hw' Ht].
    destruct (IH _ Hw') as [H1 H2]. split; [exact H1 |].
    rewrite H2. destruct ts as [| t' ts]; [exact Ht |].
    change (last (t :: t' :: ts)) with (last (t' :: ts)).
    destruct (last (t' :: ts)) eqn:E; [reflexivity |].
    apply last_None in E. discriminate.
Qed.

End StudioFacts.

(** X11.  The studio always shows one of its two tabs and always has the
    shown tab in the store, from the first render on: a stored value that
    is neither "image" nor "text" (or no value) gives the image tab and is
    overwritten.  After any selections the last one is shown; no other key
    of the store is touched; and reloading the page shows the same tab. *)
Theorem active_tab_is_kept :
  forall (store : gmap string jsstring) (ts : list AIStudio.trigger),
    let w := AIStudio.play ts (AIStudio.mount store) in
    (AIStudio.activeTab w = js "image" \/ AIStudio.activeTab w = js "text") /\
    AIStudio.localStorage w !! AIStudio.storage_key = Some (AIStudio.activeTab w) /\
    (forall key, key <> AIStudio.storage_key ->
                 AIStudio.localStorage w !! key = store !! key) /\
    AIStudio.activeTab w
    = match last ts, store !! AIStudio.storage_key with
      | Some t, _ => AIStudio.value t
      | None, Some v =>
          if bool_decide (v = js "image") || bool_decide (v = js "text")
          then v else js "image"
      | None, None => js "image"
      end /\
    AIStudio.activeTab (AIStudio.mount (AIStudio.localStorage w)) = AIStudio.activeTab w.
Proof.
  intros store ts. cbv zeta.
  destruct (StudioFacts.mount_tab store) as [Hm Hv].
  destruct (StudioFacts.play_tab store ts _ Hm) as [(Hr & Hvalid & Hs & Ho) Hlast].
  split; [exact Hvalid |]. split; [exact Hs |]. split; [exact Ho |]. split.
  - rewrite Hlast. destruct (last ts); [reflexivity | exact Hv].
  - rewrite (proj2 (StudioFacts.mount_tab _)), Hs.
    destruct Hvalid as [-> | ->]; reflexivity.
Qed.

(** A store left by another version of the studio: an unknown tab, beside
    the key of the texts. *)
Lemma active_tab_is_kept_witness :
  let store : gmap string jsstring :=
    <["ai-studio-texts" := js "[]"]> {[ AIStudio.storage_key := js "video" ]} in
  let w := AIStudio.play [AIStudio.text_trigger] (AIStudio.mount store) in
  "ai-studio-texts" <> AIStudio.storage_key /\
  AIStudio.localStorage w !! "ai-studio-texts" = store !! "ai-studio-texts" /\
  AIStudio.localStorage (AIStudio.mount store) !! AIStudio.storage_key = Some (js "image") /\
  AIStudio.activeTab w = js "text".
Proof.
  cbv zeta.
  set (store := <["ai-studio-texts" := js "[]"]> {[ AIStudio.storage_key := js "video" ]}
                : gmap string jsstring).
  assert (Hkey : "ai-studio-texts" <> AIStudio.storage_key) by discriminate.
  split; [exact Hkey |]. split; [| split].
  - destruct (active_tab_is_kept store [AIStudio.text_trigger]) as (_ & _ & Ho & _).
    apply Ho. exact Hkey.
  - destruct (active_tab_is_kept store []) as (_ & Hs & _).
    simpl in Hs. rewrite Hs. reflexivity.
  - destruct (active_tab_is_kept store [AIStudio.text_trigger]) as (_ & _ & _ & Ha & _).
    exact Ha.
Defined.

(** ** Saving and loading *)

(** X12.  A collection found in the store when the component mounts is
    shown as it was saved, empty or not, with nothing marked ill-typed, and
    the store is left holding what it held. *)
Theorem saved_collection_loads :
  (forall (store : gmap string T.item) time l,
      store !! T.storage_key = Some (T.Stringified l) ->
      T.texts (T.state (T.world (T.mount store time))) = l /\
      T.ill_typed (T.world (T.mount store time)) = false /\
      T.localStorage (T.world (T.mount store time)) = store) /\
  (forall (store : gmap string I.item) time l,
      store !! I.storage_key = Some (I.Stringified l) ->
      I.images (I.state (I.world (I.mount store time))) = l /\
      I.ill_typed (I.world (I.mount store time)) = false /\
      I.localStorage (I.world (I.mount store time)) = store).
Proof.
  split; intros store time l H.
  - rewrite (proj1 mount_cases), H.
    rewrite TextFacts.commit_state, TextFacts.commit_storage.
    split; [reflexivity |]. split.
    + unfold T.commit. simpl. destruct l; reflexivity.
    + simpl. destruct l; simpl; [reflexivity | apply insert_id; exact H].
  - rewrite (proj2 mount_cases), H.
    rewrite ImageFacts.commit_state_image, ImageFacts.commit_storage_image.
    split; [reflexivity |]. split.
    + unfold I.commit. simpl. destruct l; reflexivity.
    + simpl. destruct l; simpl; [reflexivity | apply insert_id; exact H].
Qed.

(** Two saved texts, and a saved gallery that is empty. *)
Lemma saved_collection_loads_witness :
  (let store : gmap string T.item :=
     {[ T.storage_key := T.Stringified [Samples.story_text; Samples.story_text] ]} in
   store !! T.storage_key = Some (T.Stringified [Samples.story_text; Samples.story_text]) /\
   T.texts (T.state (T.world (T.mount store Samples.time)))
   = [Samples.story_text; Samples.story_text]) /\
  (let store : gmap string I.item := {[ I.storage_key := I.Stringified [] ]} in
   store !! I.storage_key = Some (I.Stringified []) /\
   I.images (I.state (I.world (I.mount store Samples.time))) = [] /\
   I.localStorage (I.world (I.mount store Samples.time)) = store).
Proof.
  destruct saved_collection_loads as [Ht Hi].
  split; cbv zeta.
  - split; [reflexivity |].
    apply (Ht {[ T.storage_key := T.Stringified [Samples.story_text; Samples.story_text] ]}
             Samples.time [Samples.story_text; Samples.story_text]).
    reflexivity.
  - split; [reflexivity |].
    destruct (Hi {[ I.storage_key := I.Stringified [] ]} Samples.time [])
      as (H1 & _ & H2); [reflexivity |].
    split; [exact H1 | exact H2].
Defined.

(** X13.  After a confirmed "Clear All" on a collection that is not empty,
    a reload starts from nothing: the collection is empty and the component
    is in its initial state, whatever the store held before. *)
Theorem cleared_stays_cleared :
  (forall (s : T.Session) time,
      T.texts (T.state (T.world s)) <> [] ->
      let s' := T.dispatch (T.Click_clear true) s in
      T.texts (T.state (T.world s')) = [] /\
      T.state (T.world (T.mount (T.localStorage (T.world s')) time)) = T.initial) /\
  (forall (s : I.Session) time,
      I.images (I.state (I.world s)) <> [] ->
      let s' := I.dispatch (I.Click_clear true) s in
      I.images (I.state (I.world s')) = [] /\
      I.state (I.world (I.mount (I.localStorage (I.world s')) time)) = I.initial).
Proof.
  split; intros s time Hne; cbv zeta.
  - cbn [T.dispatch].
    destruct (T.texts (T.state (T.world s))) as [| t0 l0] eqn:E; [congruence |].
    change (0 <? length (t0 :: l0))%nat with true. cbv iota. unfold T.handle.
    destruct (T.exec (T.clearAll true) (T.world s)) as [w o] eqn:Ex.
    cbn in Ex. injection Ex as <- <-. cbn [T.world].
    rewrite TextFacts.commit_state, TextFacts.commit_storage.
    split; [reflexivity |].
    rewrite (proj1 mount_cases). simpl. rewrite lookup_delete_eq. reflexivity.
  - cbn [I.dispatch].
    destruct (I.images (I.state (I.world s))) as [| t0 l0] eqn:E; [congruence |].
    change (0 <? length (t0 :: l0))%nat with true. cbv iota. unfold I.handle.
    destruct (I.exec (I.clearAll true) (I.world s)) as [w o] eqn:Ex.
    cbn in Ex. injection Ex as <- <-. cbn [I.world].
    rewrite ImageFacts.commit_state_image, ImageFacts.commit_storage_image.
    split; [reflexivity |].
    rewrite (proj2 mount_cases). simpl. rewrite lookup_delete_eq. reflexivity.
Qed.

(** One artifact is generated, then everything is cleared and the page is
    reloaded. *)
Lemma cleared_stays_cleared_witness :
  (let s := T.play [T.Change_prompt Samples.story; T.Click_generate;
                    T.Settle 0 (Samples.answer Samples.once)] Samples.text_session in
   T.texts (T.state (T.world s)) <> [] /\
   T.state (T.world (T.mount (T.localStorage (T.world (T.dispatch (T.Click_clear true) s)))
                       Samples.time)) = T.initial) /\
  (let s := I.play [I.Change_prompt Samples.cityscape; I.Click_generate;
                    I.Settle 0 (Samples.answer Samples.picture)] Samples.image_session in
   I.images (I.state (I.world s)) <> [] /\
   I.state (I.world (I.mount (I.localStorage (I.world (I.dispatch (I.Click_clear true) s)))
                       Samples.time)) = I.initial).
Proof.
  destruct cleared_stays_cleared as [Ht Hi].
  split; cbv zeta.
  - assert (H : T.texts (T.state (T.world
                  (T.play [T.Change_prompt Samples.story; T.Click_generate;
                           T.Settle 0 (Samples.answer Samples.once)]
                     Samples.text_session))) <> []) by discriminate.
    split; [exact H |]. exact (proj2 (Ht _ Samples.time H)).
  - assert (H : I.images (I.state (I.world
                  (I.play [I.Change_prompt Samples.cityscape; I.Click_generate;
                           I.Settle 0 (Samples.answer Samples.picture)]
                     Samples.image_session))) <> []) by discriminate.
    split; [exact H |]. exact (proj2 (Hi _ Samples.time H)).
Defined.
